(** * Rolling deployment engine: a shallow embedding of
      [deployment_engine/engine.py], [models.py] and [failure.py],
      and the properties of its specification.

    Conventions of the embedding.

    - The fleet (the Python list [instances] of mutable [InstanceState]
      objects) is a [list InstanceState]; an object is identified by its
      position in that list, and a mutation of the object at position [k]
      is the update [<[k:=inst']> fleet]; the list holds each object once.
      Lists of object references ([instances_to_update], the batches) are
      lists of positions.
    - Python [int] is [Z]; lengths and loop counters are [nat].
    - Python [float] is IEEE binary64, computed with the executable
      operations of [SpecFloat] (precision 53, maximal exponent 1024).
    - [dict]s keyed by instance id are [gmap string _].
    - Exceptions are values of [exn]; a call either returns or raises.
    - Real time is not modelled.  A per-update deadline ([asyncio.wait_for])
      is an oracle: for the task that updates position [k] it gives the
      number of suspension points the task passes before the deadline
      fires ([None]: it never fires).
    - The tasks of one batch are run one after the other, in batch order.
      A task reads and writes only its own instance and the injector
      counter of its own [instance_id], so for a fleet with distinct ids
      every interleaving of the tasks gives the same result.  Sleeps are
      assumed to return. *)

From Stdlib Require Import ZArith Floats.SpecFloat.
From stdpp Require Import gmap strings list.

Open Scope Z_scope.

(** ** Python floats *)

Module PyFloat.

Definition prec : Z := 53.
Definition emax : Z := 1024.

Definition float := spec_float.

Definition zero : float := S754_zero false.

(** The integer [z] as an unrounded mantissa with exponent 0. *)
Definition exact (z : Z) : float :=
  match z with
  | Z0 => S754_zero false
  | Zpos p => S754_finite false p 0
  | Zneg p => S754_finite true p 0
  end.

(** [float(z)], rounded to nearest even. *)
Definition of_int (z : Z) : float := binary_normalize prec emax z 0 false.

(** [a / b] on two ints: the correctly rounded quotient. *)
Definition int_truediv (a b : Z) : float := SFdiv prec emax (exact a) (exact b).

Definition mul : float → float → float := SFmul prec emax.

(** [x > y]. *)
Definition gt (x y : float) : bool := SFltb y x.

(** [min(x, y)] as Python's builtin computes it: [y] if [y < x], else [x]. *)
Definition min (x y : float) : float := if SFltb y x then y else x.

(** [float(z)] raises [OverflowError] when [z] is out of the double range. *)
Definition int_fits (z : Z) : bool :=
  match of_int z with
  | S754_infinity _ => false
  | _ => true
  end.

End PyFloat.

(** ** Data model ([models.py]) *)

Inductive Health := HEALTHY | DEGRADED | FAILED.

#[global] Instance Health_eq_dec : EqDecision Health.
Proof. solve_decision. Defined.

Record InstanceState := mkInstance {
  instance_id : string;
  code_version : string;
  configuration_version : string;
  health : Health
}.

#[global] Instance InstanceState_eq_dec : EqDecision InstanceState.
Proof. solve_decision. Defined.

#[global] Instance InstanceState_inhabited : Inhabited InstanceState :=
  populate (mkInstance EmptyString EmptyString EmptyString HEALTHY).

Record SystemState := mkSystem {
  sys_code_version : string;
  sys_configuration_version : string;
  deployment_in_progress : bool
}.

Record DeploymentConfig := mkConfig {
  batch_size : Z;
  max_failures : option Z;
  failure_percentage : option PyFloat.float;
  timeout_s : option PyFloat.float;
  retry_max_attempts : Z;
  retry_base_delay_s : PyFloat.float
}.

(** Fleet-level event records of [result.history]. *)
Inductive Event :=
  | batch_start (batch : nat) (nodes : list string)
  | batch_completed (batch updated_so_far failed_so_far : nat)
  | abort (reason : string) (failed_count total_count : nat)
  | dry_run_event (instances_planned : nat)
  | no_updates_needed (count : nat).

(** Per-instance event records of [result.per_node_history]. *)
Inductive NodeEvent :=
  | node_updated (batch : nat)
  | node_failed (batch : nat) (error : option string).

Record DeploymentResult := mkResult {
  success : bool;
  updated : list string;
  failed : list string;
  skipped : list string;
  aborted_reason : option string;
  rolled_back : bool;
  history : list Event;
  per_node_history : gmap string (list NodeEvent)
}.

(** [DeploymentResult(success=False)] *)
Definition new_result : DeploymentResult :=
  mkResult false [] [] [] None false [] ∅.

Inductive exn :=
  | ValueError (msg : string)
  | RuntimeError (msg : string)
  | OverflowError (msg : string)
  | CancelledError.

(** ** Failure injector ([failure.py]) *)

Record FailureInjector := mkInjector {
  fail_map : gmap string Z;
  delay : PyFloat.float;
  attempts : gmap string Z
}.

Definition delay_seconds (inj : FailureInjector) : PyFloat.float := delay inj.

Definition should_fail (inj : FailureInjector) (instance : InstanceState)
    : bool * FailureInjector :=
  let id := instance_id instance in
  let n := default 0 (attempts inj !! id) + 1 in
  let inj' := mkInjector (fail_map inj) (delay inj) (<[id := n]> (attempts inj)) in
  (bool_decide (n ≤ default 0 (fail_map inj !! id)), inj').

(** ** Batch planner *)

(** The values of [range(start, stop, step)] for a positive [step]. *)
Definition py_range (start stop step : nat) : list nat :=
  let len := if (start <? stop)%nat
             then ((stop - start - 1) / step + 1)%nat else 0%nat in
  (λ k, start + k * step)%nat <$> seq 0 len.

(** [l[i:j]] for [0 <= i <= j]. *)
Definition py_slice {A} (l : list A) (i j : nat) : list A :=
  take (j - i) (drop i l).

Definition plan_batches {A} (instances : list A) (batch_size : Z)
    : exn + list (list A) :=
  if batch_size <=? 0 then inl (ValueError "batch_size must be > 0")
  else
    let instance_list := instances in
    let step := Z.to_nat batch_size in
    inr ((λ i, py_slice instance_list i (i + step))
           <$> py_range 0 (length instance_list) step).

(** ** Failure threshold evaluator *)

Definition _check_failure_limits (total_instances failed_count : Z)
    (config : DeploymentConfig) : bool :=
  if (total_instances =? 0) || (failed_count =? 0) then false
  else if match max_failures config with
          | Some m => m <? failed_count
          | None => false
          end
  then true
  else match failure_percentage config with
       | Some p =>
           let failure_rate :=
             PyFloat.mul (PyFloat.int_truediv failed_count total_instances)
                         (PyFloat.of_int 100) in
           if PyFloat.gt failure_rate p then true else false
       | None => false
       end.

(** ** Field assignments *)

Definition set_health (h : Health) (i : InstanceState) : InstanceState :=
  mkInstance (instance_id i) (code_version i) (configuration_version i) h.

Definition set_versions (code config : string) (i : InstanceState) : InstanceState :=
  mkInstance (instance_id i) code config (health i).

Definition set_deployment_in_progress (b : bool) (c : SystemState) : SystemState :=
  mkSystem (sys_code_version c) (sys_configuration_version c) b.

Definition set_system_versions (desired c : SystemState) : SystemState :=
  mkSystem (sys_code_version desired) (sys_configuration_version desired)
           (deployment_in_progress c).

Definition set_success (b : bool) (r : DeploymentResult) : DeploymentResult :=
  mkResult b (updated r) (failed r) (skipped r) (aborted_reason r)
           (rolled_back r) (history r) (per_node_history r).

Definition set_updated (l : list string) (r : DeploymentResult) : DeploymentResult :=
  mkResult (success r) l (failed r) (skipped r) (aborted_reason r)
           (rolled_back r) (history r) (per_node_history r).

Definition set_failed (l : list string) (r : DeploymentResult) : DeploymentResult :=
  mkResult (success r) (updated r) l (skipped r) (aborted_reason r)
           (rolled_back r) (history r) (per_node_history r).

Definition set_skipped (l : list string) (r : DeploymentResult) : DeploymentResult :=
  mkResult (success r) (updated r) (failed r) l (aborted_reason r)
           (rolled_back r) (history r) (per_node_history r).

Definition set_aborted_reason (s : option string) (r : DeploymentResult)
    : DeploymentResult :=
  mkResult (success r) (updated r) (failed r) (skipped r) s
           (rolled_back r) (history r) (per_node_history r).

Definition set_rolled_back (b : bool) (r : DeploymentResult) : DeploymentResult :=
  mkResult (success r) (updated r) (failed r) (skipped r) (aborted_reason r)
           b (history r) (per_node_history r).

(** [result.history.append(e)] *)
Definition history_append (e : Event) (r : DeploymentResult) : DeploymentResult :=
  mkResult (success r) (updated r) (failed r) (skipped r) (aborted_reason r)
           (rolled_back r) (history r ++ [e]) (per_node_history r).

(** [if id not in result.per_node_history: result.per_node_history[id] = []]
    followed by [result.per_node_history[id].append(e)] *)
Definition node_history_append (id : string) (e : NodeEvent)
    (r : DeploymentResult) : DeploymentResult :=
  let h := per_node_history r in
  let h := match h !! id with
           | None => <[id := []]> h
           | Some _ => h
           end in
  mkResult (success r) (updated r) (failed r) (skipped r) (aborted_reason r)
           (rolled_back r) (history r) (alter (λ l, l ++ [e]) id h).

(** ** Retry / timeout wrapper *)

(** How control leaves [_do_update]. *)
Inductive TaskExit :=
  | Return (ok : bool) (error : option string)
  | Raise (e : exn)
  | Cancelled.

(** A task with [budget] reaches a suspension point ([await asyncio.sleep]):
    either the deadline fires there ([None]) or the task resumes with the
    remaining budget. *)
Definition suspend (budget : option nat) : option (option nat) :=
  match budget with
  | None => Some None
  | Some O => None
  | Some (S n) => Some (Some n)
  end.

(** [min((2 ** (attempt - 1)) * config.retry_base_delay_s, 30.0)]; the
    product of an int and a float converts the int first. *)
Definition backoff_time (attempt : Z) (config : DeploymentConfig)
    : exn + PyFloat.float :=
  let p := 2 ^ (attempt - 1) in
  if PyFloat.int_fits p
  then inr (PyFloat.min (PyFloat.mul (PyFloat.of_int p) (retry_base_delay_s config))
                        (PyFloat.of_int 30))
  else inl (OverflowError "int too large to convert to float").

(** [range(lo, hi)] *)
Definition py_range_Z (lo hi : Z) : list Z :=
  (λ k, lo + Z.of_nat k) <$> seq 0 (Z.to_nat (hi - lo)).

(** The [for attempt in range(1, max_attempts + 1)] loop of [_do_update],
    over the attempts that remain. *)
Fixpoint _do_update_loop (range : list Z) (max_attempts : Z)
    (desired : SystemState) (config : DeploymentConfig)
    (budget : option nat) (inj : FailureInjector) (instance : InstanceState)
    : TaskExit * InstanceState * FailureInjector :=
  match range with
  | [] => (Return false (Some "Max attempts exceeded"%string), instance, inj)
  | attempt :: range' =>
      let delay := delay_seconds inj in
      match (if PyFloat.gt delay PyFloat.zero then suspend budget
             else Some budget) with
      | None => (Cancelled, instance, inj)
      | Some budget =>
          let '(fail, inj) := should_fail inj instance in
          if fail then
            (* raise Exception("Simulated deployment failure"), caught below *)
            if attempt >=? max_attempts then
              (Return false (Some "Simulated deployment failure"%string),
               set_health FAILED instance, inj)
            else
              let instance := set_health DEGRADED instance in
              match backoff_time attempt config with
              | inl e => (Raise e, instance, inj)
              | inr _ =>
                  match suspend budget with
                  | None => (Cancelled, instance, inj)
                  | Some budget =>
                      _do_update_loop range' max_attempts desired config
                                      budget inj instance
                  end
              end
          else
            let instance :=
              set_health HEALTHY
                (set_versions (sys_code_version desired)
                              (sys_configuration_version desired) instance) in
            (Return true None, instance, inj)
      end
  end.

Definition max_attempts_of (config : DeploymentConfig) : Z :=
  Z.max 1 (retry_max_attempts config + 1).

Definition _do_update (budget : option nat) (inj : FailureInjector)
    (instance : InstanceState) (desired : SystemState)
    (config : DeploymentConfig)
    : TaskExit * InstanceState * FailureInjector :=
  let max_attempts := max_attempts_of config in
  _do_update_loop (py_range_Z 1 (max_attempts + 1)) max_attempts
                  desired config budget inj instance.

(** [config.timeout_s and config.timeout_s > 0] *)
Definition timeout_active (config : DeploymentConfig) : bool :=
  match timeout_s config with
  | None => false
  | Some t =>
      match t with
      | S754_zero _ => false
      | _ => PyFloat.gt t PyFloat.zero
      end
  end.

(** [deadline] is the budget of the task should [wait_for] guard it. *)
Definition _update_instance (deadline : option nat) (inj : FailureInjector)
    (instance : InstanceState) (desired : SystemState)
    (config : DeploymentConfig)
    : (exn + bool * option string) * InstanceState * FailureInjector :=
  if timeout_active config then
    match _do_update deadline inj instance desired config with
    | (Return ok error, instance, inj) => (inr (ok, error), instance, inj)
    | (Raise e, instance, inj) => (inl e, instance, inj)
    | (Cancelled, instance, inj) =>
        (* except asyncio.TimeoutError *)
        (inr (false, Some "timeout"), set_health FAILED instance, inj)
    end
  else
    match _do_update None inj instance desired config with
    | (Return ok error, instance, inj) => (inr (ok, error), instance, inj)
    | (Raise e, instance, inj) => (inl e, instance, inj)
    | (Cancelled, instance, inj) =>
        (* not reached: without [wait_for] nothing cancels the task *)
        (inl CancelledError, instance, inj)
    end.

(** ** Rollback executor *)

(** [asdict(instance)]: a value copy of the four fields. *)
Definition asdict (instance : InstanceState) : InstanceState := instance.

Definition restore (snapshot : gmap string InstanceState)
    (instance : InstanceState) : InstanceState :=
  match snapshot !! instance_id instance with
  | Some snap =>
      set_health (health snap)
        (set_versions (code_version snap) (configuration_version snap) instance)
  | None => instance
  end.

Definition rollback (instances : list InstanceState)
    (snapshot : gmap string InstanceState) : list InstanceState :=
  restore snapshot <$> instances.

(** ** Orchestrator *)

(** The ids of the objects a list of references points to. *)
Definition ids_of (fleet : list InstanceState) (refs : list nat) : list string :=
  (λ k, instance_id (fleet !!! k)) <$> refs.

Definition _process_batch_results (fleet : list InstanceState)
    (batch : list nat) (outcomes : list (bool * option string))
    (batch_idx : nat) (result : DeploymentResult)
    (updated failed : list string)
    : DeploymentResult * list string * list string :=
  foldl (λ '(result, updated, failed) '(k, (ok, error)),
           let id := instance_id (fleet !!! k) in
           if ok : bool then
             (node_history_append id (node_updated batch_idx) result,
              updated ++ [id], failed)
           else
             (node_history_append id (node_failed batch_idx error) result,
              updated, failed ++ [id]))
        (result, updated, failed) (zip batch outcomes).

Definition needs_update (desired : SystemState) (instance : InstanceState) : bool :=
  let needs_code_update :=
    negb (String.eqb (code_version instance) (sys_code_version desired)) in
  let needs_config_update :=
    negb (String.eqb (configuration_version instance)
                     (sys_configuration_version desired)) in
  needs_code_update || needs_config_update.

(** The loop of [_find_instances_to_update]; [k] is the position of the
    head of [instances] in the fleet. *)
Fixpoint _find_loop (desired : SystemState) (k : nat)
    (instances : list InstanceState)
    (to_update : list nat) (already_updated : list string)
    : list nat * list string :=
  match instances with
  | [] => (to_update, already_updated)
  | instance :: instances' =>
      if needs_update desired instance
      then _find_loop desired (S k) instances' (to_update ++ [k]) already_updated
      else _find_loop desired (S k) instances' to_update
                      (already_updated ++ [instance_id instance])
  end.

Definition _find_instances_to_update (instances : list InstanceState)
    (desired : SystemState) : list nat * list string :=
  _find_loop desired 0 instances [] [].

Definition _handle_dry_run_or_no_updates (result : DeploymentResult)
    (instances_to_update : list nat) (dry_run : bool)
    (desired current : SystemState) : DeploymentResult * SystemState :=
  let result := set_success true result in
  if dry_run then
    (history_append (dry_run_event (length instances_to_update)) result, current)
  else if (length instances_to_update =? 0)%nat then
    (history_append (no_updates_needed 0) result,
     set_system_versions desired current)
  else (result, current).

(** [await asyncio.gather] over the update tasks of one batch;
    [deadline k] is the deadline oracle of the task for position [k].  The
    first exception of a task is the exception of the whole. *)
Fixpoint gather (batch : list nat) (deadline : nat → option nat)
    (desired : SystemState) (config : DeploymentConfig)
    (fleet : list InstanceState) (inj : FailureInjector)
    : (exn + list (bool * option string)) * list InstanceState * FailureInjector :=
  match batch with
  | [] => (inr [], fleet, inj)
  | k :: batch' =>
      match _update_instance (deadline k) inj (fleet !!! k) desired config with
      | (inl e, instance, inj) => (inl e, <[k := instance]> fleet, inj)
      | (inr outcome, instance, inj) =>
          match gather batch' deadline desired config (<[k := instance]> fleet) inj with
          | (inl e, fleet, inj) => (inl e, fleet, inj)
          | (inr outcomes, fleet, inj) => (inr (outcome :: outcomes), fleet, inj)
          end
      end
  end.

(** The state the batch loop works on. *)
Record LoopState := mkLoop {
  ls_result : DeploymentResult;
  ls_updated : list string;
  ls_failed : list string;
  ls_fleet : list InstanceState;
  ls_injector : FailureInjector
}.

(** The [for batch_idx, batch in enumerate(batches, start=1)] loop of
    [_run_batches], over the batches that remain; the loop ends with an
    exception or with the flag [was_aborted]. *)
Fixpoint _run_batches_loop (remaining : list (list nat)) (batch_idx : nat)
    (batches : list (list nat)) (deadline : nat → option nat)
    (desired : SystemState) (config : DeploymentConfig)
    (snapshot : gmap string InstanceState) (st : LoopState)
    : (exn + bool) * LoopState :=
  match remaining with
  | [] => (inr false, st)
  | batch :: remaining' =>
      let result :=
        history_append (batch_start batch_idx (ids_of (ls_fleet st) batch))
                       (ls_result st) in
      match gather batch deadline desired config (ls_fleet st) (ls_injector st) with
      | (inl e, fleet, inj) =>
          (inl e, mkLoop result (ls_updated st) (ls_failed st) fleet inj)
      | (inr batch_results, fleet, inj) =>
          let '(result, updated, failed) :=
            _process_batch_results fleet batch batch_results batch_idx result
                                   (ls_updated st) (ls_failed st) in
          let total_instances := sum_list (length <$> batches) in
          if _check_failure_limits (Z.of_nat total_instances)
                                   (Z.of_nat (length failed)) config then
            let result :=
              set_aborted_reason (Some "failure thresholds exceeded"%string) result in
            let result :=
              history_append (abort "failure thresholds exceeded"
                                    (length failed) total_instances) result in
            let fleet := rollback fleet snapshot in
            let result := set_rolled_back true result in
            let result := set_updated [] result in
            let result := set_failed failed result in
            let result := set_success false result in
            (inr true, mkLoop result updated failed fleet inj)
          else
            let result :=
              history_append (batch_completed batch_idx (length updated)
                                              (length failed)) result in
            _run_batches_loop remaining' (S batch_idx) batches deadline desired
                              config snapshot
                              (mkLoop result updated failed fleet inj)
      end
  end.

Definition _run_batches (batches : list (list nat)) (deadline : nat → option nat)
    (desired : SystemState) (config : DeploymentConfig)
    (result : DeploymentResult) (instances : list InstanceState)
    (snapshot : gmap string InstanceState) (inj : FailureInjector)
    : (exn + bool) * LoopState :=
  _run_batches_loop batches 1 batches deadline desired config snapshot
                    (mkLoop result [] [] instances inj).

Definition _finish_deployment (result : DeploymentResult)
    (updated failed : list string) (desired current : SystemState)
    : DeploymentResult * SystemState :=
  let current := set_system_versions desired current in
  let result := set_updated updated result in
  let result := set_failed failed result in
  let result := set_success (length failed =? 0)%nat result in
  (result, current).

(** Everything [deploy] can mutate. *)
Record World := mkWorld {
  fleet : list InstanceState;
  current : SystemState;
  injector : FailureInjector
}.

Inductive Outcome :=
  | Returned (result : DeploymentResult)
  | Raised (e : exn).

(** [snapshot[instance.instance_id] = asdict(instance)] for each instance. *)
Definition take_snapshot (instances : list InstanceState)
    : gmap string InstanceState :=
  foldl (λ snapshot instance, <[instance_id instance := asdict instance]> snapshot)
        ∅ instances.

(** The [try] block of [deploy]. *)
Definition deploy_try (deadline : nat → option nat)
    (instances_to_update : list nat) (snapshot : gmap string InstanceState)
    (result : DeploymentResult) (desired : SystemState)
    (config : DeploymentConfig) (w : World) : Outcome * World :=
  match plan_batches instances_to_update (batch_size config) with
  | inl e => (Raised e, w)
  | inr batches =>
      match _run_batches batches deadline desired config result (fleet w)
                         snapshot (injector w) with
      | (inl e, st) => (Raised e, mkWorld (ls_fleet st) (current w) (ls_injector st))
      | (inr was_aborted, st) =>
          if was_aborted : bool then
            (Returned (ls_result st),
             mkWorld (ls_fleet st) (current w) (ls_injector st))
          else
            let '(result, current) :=
              _finish_deployment (ls_result st) (ls_updated st) (ls_failed st)
                                 desired (current w) in
            (Returned result, mkWorld (ls_fleet st) current (ls_injector st))
      end
  end.

Definition deploy (deadline : nat → option nat) (w : World)
    (desired : SystemState) (config : DeploymentConfig) (dry_run : bool)
    : Outcome * World :=
  if deployment_in_progress (current w) then
    (Raised (RuntimeError "deployment already in progress"), w)
  else
    let result := new_result in
    let '(instances_to_update, already_updated) :=
      _find_instances_to_update (fleet w) desired in
    let result := set_skipped already_updated result in
    if dry_run || (length instances_to_update =? 0)%nat then
      let '(result, current) :=
        _handle_dry_run_or_no_updates result instances_to_update dry_run
                                      desired (current w) in
      (Returned result, mkWorld (fleet w) current (injector w))
    else
      let w := mkWorld (fleet w) (set_deployment_in_progress true (current w))
                       (injector w) in
      let snapshot := take_snapshot (fleet w) in
      let '(outcome, w) :=
        deploy_try deadline instances_to_update snapshot result desired config w in
      (* finally *)
      (outcome, mkWorld (fleet w) (set_deployment_in_progress false (current w))
                        (injector w)).

(** * Vocabulary of the properties *)

(** The failure rate in percent, as [_check_failure_limits] computes it:
    [(failed_count / total_instances) * 100.0] in binary64. *)
Definition failure_rate (failed_count total_instances : Z) : PyFloat.float :=
  PyFloat.mul (PyFloat.int_truediv failed_count total_instances)
              (PyFloat.of_int 100).

(** The number of calls of [should_fail] for [id] between two injector states. *)
Definition calls (inj inj' : FailureInjector) (id : string) : Z :=
  default 0 (attempts inj' !! id) - default 0 (attempts inj !! id).

(** What [_do_update] has done to the instance it was given. *)
Definition updated_instance (desired : SystemState) (i : InstanceState) : InstanceState :=
  mkInstance (instance_id i) (sys_code_version desired)
             (sys_configuration_version desired) HEALTHY.

Definition same_versions (i i' : InstanceState) : Prop :=
  instance_id i' = instance_id i ∧
  code_version i' = code_version i ∧
  configuration_version i' = configuration_version i.

(** What a finished task has done to its instance: [o] is the pair
    [(success, error)] the task returned. *)
Definition settled (desired : SystemState) (old new : InstanceState)
    (o : bool * option string) : Prop :=
  if o.1 then new = updated_instance desired old
  else same_versions old new ∧ health new = FAILED.

(** The fields of a result other than the two histories. *)
Definition summary (r : DeploymentResult) :=
  (success r, updated r, failed r, skipped r, aborted_reason r, rolled_back r).

(** The positions of the instances of [instances] that need an update,
    counted from [k]. *)
Fixpoint positions_to_update (desired : SystemState) (k : nat)
    (instances : list InstanceState) : list nat :=
  match instances with
  | [] => []
  | instance :: instances' =>
      if needs_update desired instance
      then k :: positions_to_update desired (S k) instances'
      else positions_to_update desired (S k) instances'
  end.

(** The instances that need an update, in input order, and those that do not. *)
Definition needing_update (desired : SystemState) (instances : list InstanceState)
    : list InstanceState :=
  filter (λ i, needs_update desired i = true) instances.

Definition up_to_date (desired : SystemState) (instances : list InstanceState)
    : list InstanceState :=
  filter (λ i, needs_update desired i ≠ true) instances.

(** An instance is at the desired versions and HEALTHY. *)
Definition at_desired (desired : SystemState) (i : InstanceState) : Prop :=
  code_version i = sys_code_version desired ∧
  configuration_version i = sys_configuration_version desired ∧
  health i = HEALTHY.

(** The invariant of the batch loop: [f0] is the fleet at the start of the
    loop and [P] the positions the batches run so far were made of. *)
Record loop_inv (f0 : list InstanceState) (desired : SystemState)
    (P : list nat) (st : LoopState) : Prop := mkInv {
  inv_ids : instance_id <$> ls_fleet st = instance_id <$> f0;
  inv_updated : ls_updated st `sublist_of` ids_of f0 P;
  inv_failed : ls_failed st `sublist_of` ids_of f0 P;
  inv_perm : ls_updated st ++ ls_failed st ≡ₚ ids_of f0 P;
  inv_desired :
    ls_failed st = [] → Forall (λ k, at_desired desired (ls_fleet st !!! k)) P
}.

(** [a] occurs before [b] in [l]. *)
Definition appears_before (l : list string) (a b : string) : Prop :=
  ∃ i j, l !! i = Some a ∧ l !! j = Some b ∧ (i < j)%nat.

(** ** Concrete runs *)

Module Scenario.

Definition no_deadline : nat → option nat := λ _, None.

Definition old_instance (id : string) : InstanceState :=
  mkInstance id "oldC" "oldK" HEALTHY.

Definition desired : SystemState := mkSystem "newC" "newK" false.
Definition current0 : SystemState := mkSystem "oldC" "oldK" false.
Definition busy : SystemState := mkSystem "oldC" "oldK" true.

(** [FailureInjector(fail_attempts=..., delay=0)] *)
Definition failing (fail_attempts : list (string * Z)) : FailureInjector :=
  mkInjector (list_to_map fail_attempts) PyFloat.zero ∅.

(** [DeploymentConfig(batch_size=..., max_failures=...)] *)
Definition config (batch_size : Z) (max_failures : option Z) : DeploymentConfig :=
  mkConfig batch_size max_failures None None 0 (PyFloat.int_truediv 1 10).

Definition fleet2 : list InstanceState := old_instance <$> ["id0"; "id1"].
Definition fleet3 : list InstanceState := old_instance <$> ["id0"; "id1"; "id2"].
Definition fleet5 : list InstanceState :=
  old_instance <$> ["id0"; "id1"; "id2"; "id3"; "id4"].

(** Five instances, batches of two, [max_failures = 1], the executor
    fails id1 and id3: the second batch breaches the threshold. *)
Definition abort_run : Outcome * World :=
  deploy no_deadline (mkWorld fleet5 current0 (failing [("id1", 1); ("id3", 1)]))
         desired (config 2 (Some 1)) false.

(** Three instances, a dry run. *)
Definition dry_run : Outcome * World :=
  deploy no_deadline (mkWorld fleet3 current0 (failing [])) desired
         (config 5 None) true.

(** Two instances in one batch, no threshold, the executor fails id0. *)
Definition partial_run : Outcome * World :=
  deploy no_deadline (mkWorld fleet2 current0 (failing [("id0", 1)])) desired
         (config 2 None) false.

(** Five instances, batches of two, no failure. *)
Definition success_run : Outcome * World :=
  deploy no_deadline (mkWorld fleet5 current0 (failing [])) desired
         (config 2 None) false.

(** A call while another deployment is in progress. *)
Definition reentrant_run : Outcome * World :=
  deploy no_deadline (mkWorld fleet2 busy (failing [])) desired
         (config 2 None) false.

(** [batch_size = 0]. *)
Definition bad_config_run : Outcome * World :=
  deploy no_deadline (mkWorld fleet2 current0 (failing [])) desired
         (config 0 None) false.

Definition result_of (run : Outcome * World) : DeploymentResult :=
  match run.1 with
  | Returned r => r
  | Raised _ => new_result
  end.

End Scenario.

(** * Command-line front end ([cli.py]) and the external rollback

    The front end reads and writes JSON documents.  A fleet document is
    taken as parsed: a list of objects, each a [gmap] from keys to
    strings (the fleet documents of the specification have string
    fields only).  File access, argument parsing and printing are not
    modelled.  An instance read from a document holds its health as the
    string of the document, which nothing validates; a [Health] member
    is held as its value, to which it is equal and as which it is
    written. *)

Inductive cli_error :=
  | KeyError (key : string)
  | HealthValueError (value : string).

Record RawInstance := mkRaw {
  raw_instance_id : string;
  raw_code_version : string;
  raw_configuration_version : string;
  raw_health : string
}.

(** The values of the enumeration [Health]. *)
Definition health_value (h : Health) : string :=
  match h with
  | HEALTHY => "healthy"
  | DEGRADED => "degraded"
  | FAILED => "failed"
  end.

(** [Health(value)]: the member with that value, or [ValueError]. *)
Definition Health_of_value (value : string) : cli_error + Health :=
  if String.eqb value "healthy" then inr HEALTHY
  else if String.eqb value "degraded" then inr DEGRADED
  else if String.eqb value "failed" then inr FAILED
  else inl (HealthValueError value).

(** An [InstanceState] of the engine as the front end holds it. *)
Definition raw_of (i : InstanceState) : RawInstance :=
  mkRaw (instance_id i) (code_version i) (configuration_version i)
        (health_value (health i)).

(** The body of the loop of [load_instances] for one entry. *)
Definition load_instance (i : gmap string string) : cli_error + RawInstance :=
  let health := default "healthy"%string (i !! "health"%string) in
  match i !! "instance_id"%string with
  | None => inl (KeyError "instance_id")
  | Some instance_id =>
      match i !! "code_version"%string with
      | None => inl (KeyError "code_version")
      | Some code_version =>
          match i !! "configuration_version"%string with
          | None => inl (KeyError "configuration_version")
          | Some configuration_version =>
              inr (mkRaw instance_id code_version configuration_version health)
          end
      end
  end.

(** [load_instances], from the parsed document on. *)
Fixpoint load_instances (data : list (gmap string string))
    : cli_error + list RawInstance :=
  match data with
  | [] => inr []
  | i :: data' =>
      match load_instance i with
      | inl e => inl e
      | inr instance =>
          match load_instances data' with
          | inl e => inl e
          | inr instances => inr (instance :: instances)
          end
      end
  end.

(** [asdict(i)] as a JSON object. *)
Definition asdict_document (i : RawInstance) : gmap string string :=
  list_to_map [("instance_id"%string, raw_instance_id i);
               ("code_version"%string, raw_code_version i);
               ("configuration_version"%string, raw_configuration_version i);
               ("health"%string, raw_health i)].

(** [save_instances], up to the document handed to [json.dump]. *)
Definition save_instances (instances : list RawInstance)
    : list (gmap string string) :=
  asdict_document <$> instances.

(** The snapshot document the [deploy] command writes:
    [{i.instance_id: asdict(i) for i in instances}]. *)
Definition snapshot_document (instances : list RawInstance)
    : gmap string (gmap string string) :=
  foldl (λ snapshot i, <[raw_instance_id i := asdict_document i]> snapshot)
        ∅ instances.

(** One iteration of the loop of [rollback] on a snapshot read from a
    document: the three assignments in the order of the source; an error
    leaves the assignments made before it. *)
Definition rollback_instance (snapshot : gmap string (gmap string string))
    (instance : RawInstance) : RawInstance * option cli_error :=
  match snapshot !! raw_instance_id instance with
  | None => (instance, None)
  | Some snap =>
      match snap !! "code_version"%string with
      | None => (instance, Some (KeyError "code_version"))
      | Some code_version =>
          let instance :=
            mkRaw (raw_instance_id instance) code_version
                  (raw_configuration_version instance) (raw_health instance) in
          match snap !! "configuration_version"%string with
          | None => (instance, Some (KeyError "configuration_version"))
          | Some configuration_version =>
              let instance :=
                mkRaw (raw_instance_id instance) (raw_code_version instance)
                      configuration_version (raw_health instance) in
              match snap !! "health"%string with
              | None => (instance, Some (KeyError "health"))
              | Some value =>
                  match Health_of_value value with
                  | inl e => (instance, Some e)
                  | inr h =>
                      (mkRaw (raw_instance_id instance) (raw_code_version instance)
                             (raw_configuration_version instance) (health_value h),
                       None)
                  end
              end
          end
      end
  end.

(** [rollback] on a snapshot read from a document: the instances as the
    loop leaves them, and the error that ended it, if any. *)
Fixpoint rollback_document (instances : list RawInstance)
    (snapshot : gmap string (gmap string string))
    : list RawInstance * option cli_error :=
  match instances with
  | [] => ([], None)
  | instance :: instances' =>
      match rollback_instance snapshot instance with
      | (instance, Some e) => (instance :: instances', Some e)
      | (instance, None) =>
          let '(instances', e) := rollback_document instances' snapshot in
          (instance :: instances', e)
      end
  end.

(** * Further vocabulary *)

(** An instance already has the desired code and configuration versions. *)
Definition matches (desired : SystemState) (i : InstanceState) : Prop :=
  code_version i = sys_code_version desired ∧
  configuration_version i = sys_configuration_version desired.

#[global] Instance matches_dec desired i : Decision (matches desired i).
Proof. unfold matches. apply _. Defined.

(** The injected failures an id still has to go through:
    [fail_map.get(id, 0) - attempts.get(id, 0)]. *)
Definition remaining_failures (inj : FailureInjector) (id : string) : Z :=
  default 0 (fail_map inj !! id) - default 0 (attempts inj !! id).

(** [n] successive calls of [should_fail] on one instance. *)
Fixpoint should_fail_times (n : nat) (inj : FailureInjector)
    (instance : InstanceState) : list bool * FailureInjector :=
  match n with
  | O => ([], inj)
  | S n =>
      let '(b, inj) := should_fail inj instance in
      let '(bs, inj) := should_fail_times n inj instance in
      (b :: bs, inj)
  end.

(** The kinds of fleet-level events. *)
Definition is_batch_start (e : Event) : bool :=
  match e with batch_start _ _ => true | _ => false end.

Definition is_batch_completed (e : Event) : bool :=
  match e with batch_completed _ _ _ => true | _ => false end.

Definition is_abort (e : Event) : bool :=
  match e with abort _ _ _ => true | _ => false end.

Definition count_events (kind : Event → bool) (h : list Event) : nat :=
  length (filter (λ e, kind e = true) h).

(** What a completed deployment has done to the instance at one position
    it had to update: [U] and [F] are the ids recorded as updated and as
    failed. *)
Definition position_done (desired : SystemState) (old new : InstanceState)
    (U F : list string) : Prop :=
  (instance_id old ∈ U ∧ new = updated_instance desired old) ∨
  (instance_id old ∈ F ∧ same_versions old new ∧ health new = FAILED).

(** ** More concrete runs *)

Module Cases.

Definition abort_world : World :=
  mkWorld Scenario.fleet5 Scenario.current0
          (Scenario.failing [("id1"%string, 1); ("id3"%string, 1)]).
Definition abort_config : DeploymentConfig := Scenario.config 2 (Some 1).
Definition abort_result : DeploymentResult := Scenario.result_of Scenario.abort_run.

Definition partial_world : World :=
  mkWorld Scenario.fleet2 Scenario.current0 (Scenario.failing [("id0"%string, 1)]).
Definition partial_result : DeploymentResult :=
  Scenario.result_of Scenario.partial_run.

Definition success_world : World :=
  mkWorld Scenario.fleet5 Scenario.current0 (Scenario.failing []).
Definition plain_config : DeploymentConfig := Scenario.config 2 None.

(** A fleet in which id1 already has the desired versions, but is DEGRADED. *)
Definition mixed_fleet : list InstanceState :=
  [Scenario.old_instance "id0"; mkInstance "id1" "newC" "newK" DEGRADED;
   Scenario.old_instance "id2"].
Definition mixed_world : World :=
  mkWorld mixed_fleet Scenario.current0 (Scenario.failing []).
Definition mixed_run : Outcome * World :=
  deploy Scenario.no_deadline mixed_world Scenario.desired plain_config false.

(** A fleet that is already at the desired versions. *)
Definition done_fleet : list InstanceState :=
  [mkInstance "id0" "newC" "newK" HEALTHY; mkInstance "id1" "newC" "newK" FAILED].
Definition done_world : World :=
  mkWorld done_fleet Scenario.current0 (Scenario.failing []).

(** One retry, one injected failure. *)
Definition retry_config : DeploymentConfig :=
  mkConfig 1 None None None 1 (PyFloat.int_truediv 1 100).
Definition retry_injector : FailureInjector := Scenario.failing [("id0"%string, 1)].

(** 2000 retries, 5000 injected failures. *)
Definition endless_config : DeploymentConfig :=
  mkConfig 1 None None None 2000 (PyFloat.int_truediv 1 100).
Definition endless_injector : FailureInjector :=
  Scenario.failing [("id0"%string, 5000)].

(** A snapshot document whose entry for id1 has a health in capitals. *)
Definition bad_snapshot : gmap string (gmap string string) :=
  list_to_map
    [("id0"%string, asdict_document (mkRaw "id0" "oldC" "oldK" "healthy"));
     ("id1"%string, asdict_document (mkRaw "id1" "oldC" "oldK" "HEALTHY"))].

Definition raw_new (id : string) : RawInstance := mkRaw id "newC" "newK" "failed".

End Cases.

(** * Properties *)

(** ** Batch planner *)

Section Planner.
Context {A : Type}.
Implicit Types (l : list A) (n m k : nat).

Lemma py_range_0 (stop step : nat) :
  py_range 0 stop step =
  (λ k, k * step)%nat <$> seq 0 (if (0 <? stop)%nat then ((stop - 1) / step + 1)%nat else 0%nat).
Proof.
  unfold py_range. rewrite Nat.sub_0_r. apply list_fmap_ext. intros _ k _. lia.
Qed.

Lemma concat_slices l n m :
  concat ((λ k, py_slice l (k * n) (k * n + n)) <$> seq 0 m) = take (m * n) l.
Proof.
  induction m as [|m IH].
  - by rewrite take_0.
  - rewrite seq_S, fmap_app, concat_app, IH. simpl. rewrite app_nil_r.
    unfold py_slice. replace (m * n + n - m * n)%nat with n by lia.
    replace (n + m * n)%nat with (m * n + n)%nat by lia.
    by rewrite take_take_drop.
Qed.


Lemma range_len_bounds (len n : nat) :
  (0 < n)%nat → (0 < len)%nat →
  let m := ((len - 1) / n + 1)%nat in
  ((m - 1) * n < len ∧ len ≤ m * n)%nat.
Proof.
  intros Hn Hlen m. subst m.
  pose proof (Nat.div_mod (len - 1) n ltac:(lia)) as Hdm.
  pose proof (Nat.mod_upper_bound (len - 1) n ltac:(lia)) as Hub.
  split; nia.
Qed.

End Planner.

(** C8.  [plan_batches] raises its configuration error exactly when
    [batch_size < 1]; otherwise it returns the input cut into contiguous
    slices of length [batch_size] in input order: the slices concatenate
    to the input, slice [i] starts at offset [i * batch_size], none is
    empty or longer than [batch_size], every slice but the last has
    exactly [batch_size] elements, and an empty input gives no slice. *)
Theorem plan_batches_partition {A} (instances : list A) (batch_size : Z) :
  let n := Z.to_nat batch_size in
  (plan_batches instances batch_size = inl (ValueError "batch_size must be > 0")
   ↔ batch_size < 1) ∧
  ((∃ batches, plan_batches instances batch_size = inr batches) ↔ 1 ≤ batch_size) ∧
  (∀ batches, plan_batches instances batch_size = inr batches →
     concat batches = instances ∧
     (∀ i b, batches !! i = Some b →
        b = take n (drop (i * n) instances) ∧
        (0 < length b ≤ n)%nat ∧
        (S i < length batches → length b = n)%nat) ∧
     (instances = [] → batches = [])).
Proof.
  intros n. unfold plan_batches.
  destruct (Z.leb_spec batch_size 0) as [Hle|Hgt].
  { split; [split; [lia|done]|]. split; [|done].
    split; [intros [? ?]; done | lia]. }
  split; [split; [done|lia]|]. split; [split; [lia|eauto]|].
  intros batches [= <-]. fold n.
  assert (Hn : (0 < n)%nat) by lia.
  rewrite py_range_0, <- list_fmap_compose.
  set (m := if (0 <? length instances)%nat
            then ((length instances - 1) / n + 1)%nat else 0%nat).
  assert (Hm : (length instances ≤ m * n)%nat ∧
               (length instances = 0 → m = 0)%nat ∧
               (0 < m → (m - 1) * n < length instances)%nat).
  { subst m. destruct (Nat.ltb_spec 0 (length instances)) as [Hpos|Hz].
    - pose proof (range_len_bounds (length instances) n Hn Hpos) as [? ?]. lia.
    - lia. }
  destruct Hm as (Hcover & Hempty & Hlast).
  split; [|split].
  - etransitivity; [apply (concat_slices instances n m)|].
    by apply take_ge.
  - intros i b Hb. rewrite list_lookup_fmap in Hb.
    destruct (seq 0 m !! i) as [k|] eqn:Hk; [|done].
    apply lookup_seq in Hk as [-> Hi]. simpl in Hb. injection Hb as <-.
    unfold py_slice. replace (i * n + n - i * n)%nat with n by lia.
    split; [done|]. rewrite length_take, length_drop, length_fmap, length_seq.
    split; [|intros ?]; nia.
  - intros ->. reflexivity.
Qed.

(** ** Failure threshold evaluator *)


(** ** Retry / timeout wrapper *)

Lemma py_range_Z_cons (lo hi : Z) :
  lo < hi → py_range_Z lo hi = lo :: py_range_Z (lo + 1) hi.
Proof.
  intros Hlt. unfold py_range_Z.
  replace (Z.to_nat (hi - lo)) with (S (Z.to_nat (hi - (lo + 1)))) by lia.
  rewrite <- cons_seq. simpl. f_equal; [lia|].
  rewrite <- fmap_S_seq, <- list_fmap_compose.
  apply list_fmap_ext. intros _ k _. simpl. lia.
Qed.

Lemma py_range_Z_length (lo hi : Z) :
  length (py_range_Z lo hi) = Z.to_nat (hi - lo).
Proof. unfold py_range_Z. by rewrite length_fmap, length_seq. Qed.

Lemma should_fail_calls inj instance :
  calls inj (should_fail inj instance).2 (instance_id instance) = 1.
Proof.
  unfold calls, should_fail. simpl. rewrite lookup_insert_eq. simpl. lia.
Qed.

Lemma suspend_resumes budget budget' :
  suspend budget = Some budget' → budget' ≠ None → budget ≠ None.
Proof. by destruct budget as [[|?]|]; intros [= <-]. Qed.

Lemma suspend_fires budget : suspend budget = None → budget ≠ None.
Proof. by destruct budget as [[|?]|]. Qed.

Lemma delay_resumes (b : bool) budget budget' :
  (if b then suspend budget else Some budget) = Some budget' →
  budget' ≠ None → budget ≠ None.
Proof. destruct b; [apply suspend_resumes|by intros [= <-]]. Qed.

Lemma delay_fires (b : bool) budget :
  (if b then suspend budget else Some budget) = None → budget ≠ None.
Proof. destruct b; [apply suspend_fires|done]. Qed.

Lemma same_versions_set_health h instance instance' :
  same_versions (set_health h instance) instance' → same_versions instance instance'.
Proof. done. Qed.

#[local] Opaque should_fail backoff_time suspend.

Lemma do_update_loop_post desired config max_attempts (n : nat) :
  ∀ a budget inj instance,
    1 ≤ a ≤ max_attempts →
    n = Z.to_nat (max_attempts - a) →
    let '(ex, instance', inj') :=
      _do_update_loop (py_range_Z a (max_attempts + 1)) max_attempts desired
                      config budget inj instance in
    let c := calls inj inj' (instance_id instance) in
    match ex with
    | Return true error =>
        error = None ∧ instance' = updated_instance desired instance ∧
        1 ≤ c ≤ max_attempts - a + 1
    | Return false error =>
        error = Some "Simulated deployment failure"%string ∧
        same_versions instance instance' ∧ health instance' = FAILED ∧
        c = max_attempts - a + 1
    | Raise e =>
        same_versions instance instance' ∧ 1 ≤ c ≤ max_attempts - a
    | Cancelled =>
        same_versions instance instance' ∧ budget ≠ None ∧
        0 ≤ c ≤ max_attempts - a + 1
    end.
Proof.
  induction n as [|n IH]; intros a budget inj instance Ha Hn;
    (rewrite py_range_Z_cons by lia); simpl.
  all: destruct (if PyFloat.gt (delay_seconds inj) PyFloat.zero
                 then suspend budget else Some budget) as [budget1|] eqn:Hb.
  all: try (split; [done|]; split;
            [by eapply delay_fires|unfold calls; lia]).
  all: pose proof (should_fail_calls inj instance) as Hc.
  all: destruct (should_fail inj instance) as [fail inj1] eqn:Hsf; simpl in Hc.
  all: destruct fail; simpl; [|split; [done|]; split; [done|lia]].
  - rewrite (proj2 (Z.geb_le a max_attempts)) by lia.
    split; [done|]. split; [done|]. split; [done|lia].
  - destruct (Z.geb_spec a max_attempts) as [Hge|Hlt]; [lia|].
    destruct (backoff_time a config) as [e|t]; [split; [done|lia]|].
    destruct (suspend budget1) as [budget2|] eqn:Hb2.
    + specialize (IH (a + 1) budget2 inj1 (set_health DEGRADED instance)
                     ltac:(lia) ltac:(lia)).
      destruct (_do_update_loop _ _ _ _ _ _ _) as [[ex instance'] inj'].
      simpl in IH.
      assert (calls inj inj' (instance_id instance)
              = 1 + calls inj1 inj' (instance_id instance)) as ->.
      { unfold calls in *. lia. }
      destruct ex as [[|] error|e|].
      * destruct IH as (-> & -> & ?). split; [done|]. split; [done|lia].
      * destruct IH as (-> & ?%same_versions_set_health & ? & ?).
        split; [done|]. split; [done|]. split; [done|lia].
      * destruct IH as (?%same_versions_set_health & ?). split; [done|lia].
      * destruct IH as (?%same_versions_set_health & ? & ?).
        split; [done|]. split; [|lia].
        eapply delay_resumes; [done|]. by eapply suspend_resumes.
    + split; [done|]. split; [|lia].
      eapply delay_resumes; [done|]. by eapply suspend_fires.
Qed.

(** C9.  For every configuration, also one with a negative
    [retry_max_attempts], the retry loop of [_do_update] runs over
    [max(1, retry_max_attempts + 1) >= 1] attempts, so its body is entered
    at least once and the branch after the loop (the error "Max attempts
    exceeded") is never taken: a call that returns has asked the executor
    between 1 and [max(1, retry_max_attempts + 1)] times, and exactly that
    many times when it returns a failure. *)
Theorem do_update_fall_through_unreachable
    (budget : option nat) (inj : FailureInjector) (instance : InstanceState)
    (desired : SystemState) (config : DeploymentConfig) :
  let max_attempts := Z.max 1 (retry_max_attempts config + 1) in
  let '(ex, instance', inj') := _do_update budget inj instance desired config in
  let c := calls inj inj' (instance_id instance) in
  1 ≤ max_attempts ∧
  length (py_range_Z 1 (max_attempts + 1)) = Z.to_nat max_attempts ∧
  (∀ ok, ex ≠ Return ok (Some "Max attempts exceeded"%string)) ∧
  match ex with
  | Return ok error =>
      1 ≤ c ≤ max_attempts ∧
      (ok = false → c = max_attempts ∧
                    error = Some "Simulated deployment failure"%string)
  | Raise e => 1 ≤ c < max_attempts
  | Cancelled => budget ≠ None ∧ 0 ≤ c ≤ max_attempts
  end.
Proof.
  intros max_attempts. unfold _do_update, max_attempts_of. fold max_attempts.
  pose proof (do_update_loop_post desired config max_attempts
                (Z.to_nat (max_attempts - 1)) 1 budget inj instance
                ltac:(lia) eq_refl) as Hpost.
  destruct (_do_update_loop _ _ _ _ _ _ _) as [[ex instance'] inj'].
  simpl in Hpost. simpl.
  split; [lia|]. split; [rewrite py_range_Z_length; lia|].
  destruct ex as [[|] error|e|].
  - destruct Hpost as (-> & _ & ?). split; [done|]. split; [lia|done].
  - destruct Hpost as (-> & _ & _ & ?). split; [done|]. split; [lia|].
    intros _. split; [lia|done].
  - split; [done|]. lia.
  - split; [done|]. destruct Hpost as (_ & ? & ?). split; [done|lia].
Qed.

(** ** Orchestrator: the re-entry guard and the in-progress flag *)

(** C7.  When [current.deployment_in_progress] is true on entry, [deploy]
    raises its concurrent-deployment error and nothing is mutated: the
    instances, [current] (versions and flag) and the injector are as
    before, and no result is produced. *)
Theorem deploy_reentry_guard
    (deadline : nat → option nat) (w : World) (desired : SystemState)
    (config : DeploymentConfig) (dry_run : bool) :
  deployment_in_progress (current w) = true →
  deploy deadline w desired config dry_run
  = (Raised (RuntimeError "deployment already in progress"), w).
Proof. intros Hflag. unfold deploy. by rewrite Hflag. Qed.

(** C3 (amended).  When [current.deployment_in_progress] is false on
    entry, it is false when [deploy] returns or raises, on every exit
    path: dry run, nothing to update, normal completion, abort with
    rollback, the configuration error of the batch planner and an
    exception of an update task. *)
Theorem deploy_clears_flag
    (deadline : nat → option nat) (w : World) (desired : SystemState)
    (config : DeploymentConfig) (dry_run : bool) :
  deployment_in_progress (current w) = false →
  deployment_in_progress (current (deploy deadline w desired config dry_run).2)
  = false.
Proof.
  intros Hflag. unfold deploy. rewrite Hflag.
  destruct (_find_instances_to_update _ _) as [to_update already].
  destruct (dry_run || _) eqn:Hshort.
  - unfold _handle_dry_run_or_no_updates.
    destruct dry_run; [done|]. simpl in *. by rewrite Hshort.
  - by destruct (deploy_try _ _ _ _ _ _ _) as [outcome w'].
Qed.

(** ** One update task *)

Lemma do_update_post budget inj instance desired config :
  let '(ex, instance', inj') := _do_update budget inj instance desired config in
  match ex with
  | Return ok error => settled desired instance instance' (ok, error)
  | Raise e => same_versions instance instance'
  | Cancelled => same_versions instance instance' ∧ budget ≠ None
  end.
Proof.
  unfold _do_update.
  pose proof (do_update_loop_post desired config (max_attempts_of config)
                (Z.to_nat (max_attempts_of config - 1)) 1 budget inj instance
                ltac:(unfold max_attempts_of; lia) eq_refl) as Hpost.
  destruct (_do_update_loop _ _ _ _ _ _ _) as [[ex instance'] inj'].
  simpl in Hpost. destruct ex as [[|] error|e|]; unfold settled; simpl; tauto.
Qed.

Lemma update_instance_post deadline inj instance desired config :
  let '(r, instance', inj') :=
    _update_instance deadline inj instance desired config in
  match r with
  | inr o => settled desired instance instance' o
  | inl e => same_versions instance instance'
  end.
Proof.
  unfold _update_instance. destruct (timeout_active config).
  - pose proof (do_update_post deadline inj instance desired config) as Hpost.
    destruct (_do_update _ _ _ _ _) as [[ex instance'] inj'].
    destruct ex as [ok error|e|]; [done|done|].
    destruct Hpost as [Hsame _]. by split.
  - pose proof (do_update_post None inj instance desired config) as Hpost.
    destruct (_do_update _ _ _ _ _) as [[ex instance'] inj'].
    destruct ex as [ok error|e|]; [done|done|]. by destruct Hpost.
Qed.

Lemma settled_id desired old new o :
  settled desired old new o → instance_id new = instance_id old.
Proof.
  unfold settled. destruct o as [[|] error]; simpl; [by intros ->|].
  by intros [[? _] _].
Qed.

(** ** One batch *)

Lemma ids_insert (fleet : list InstanceState) (k : nat) (instance : InstanceState) :
  instance_id instance = instance_id (fleet !!! k) →
  instance_id <$> <[k := instance]> fleet = instance_id <$> fleet.
Proof.
  intros Hid. rewrite list_fmap_insert.
  destruct (decide (k < length fleet)%nat) as [Hlt|Hge].
  - apply list_insert_id. rewrite list_lookup_fmap, Hid.
    by rewrite (list_lookup_lookup_total_lt fleet k Hlt).
  - apply list_insert_ge. rewrite length_fmap. lia.
Qed.

Lemma gather_post deadline desired config (batch : list nat) :
  ∀ fleet inj,
    let '(r, fleet', inj') := gather batch deadline desired config fleet inj in
    instance_id <$> fleet' = instance_id <$> fleet ∧
    (∀ j, j ∉ batch → fleet' !! j = fleet !! j) ∧
    match r with
    | inl e => True
    | inr outcomes =>
        length outcomes = length batch ∧
        (NoDup batch → Forall (λ k, k < length fleet)%nat batch →
         ∀ i k o, batch !! i = Some k → outcomes !! i = Some o →
                  settled desired (fleet !!! k) (fleet' !!! k) o)
    end.
Proof.
  induction batch as [|k batch IH]; intros fleet inj; simpl.
  { split; [done|]. split; [done|]. split; [done|]. intros _ _ i k o. done. }
  pose proof (update_instance_post (deadline k) inj (fleet !!! k) desired config)
    as Hpost.
  destruct (_update_instance _ _ _ _ _) as [[r instance'] inj1].
  assert (instance_id instance' = instance_id (fleet !!! k)) as Hid.
  { destruct r as [e|o]; [by destruct Hpost|by eapply settled_id]. }
  destruct r as [e|o].
  { split; [by apply ids_insert|]. split; [|done].
    intros j Hj. apply list_lookup_insert_ne. set_solver. }
  specialize (IH (<[k := instance']> fleet) inj1).
  destruct (gather _ _ _ _ _ _) as [[r fleet'] inj'].
  destruct IH as (Hids & Hframe & IH).
  assert (instance_id <$> fleet' = instance_id <$> fleet) as Hids'.
  { rewrite Hids. by apply ids_insert. }
  assert (∀ j, j ∉ k :: batch → fleet' !! j = fleet !! j) as Hframe'.
  { intros j Hj. rewrite Hframe by set_solver.
    apply list_lookup_insert_ne. set_solver. }
  destruct r as [e|outcomes]; [done|].
  split; [done|]. split; [done|].
  destruct IH as [Hlen IH]. split; [simpl; lia|].
  intros [Hk Hnd]%NoDup_cons [Hlt Hall]%Forall_cons i k' o' Hi Ho.
  destruct i as [|i]; simpl in *.
  - injection Hi as <-. injection Ho as <-.
    assert (fleet' !!! k = instance') as ->; [|done].
    apply list_lookup_total_correct. rewrite Hframe by done.
    by apply list_lookup_insert_eq.
  - assert (k' ≠ k) as Hne.
    { intros ->. apply Hk. by eapply list_elem_of_lookup_2. }
    specialize (IH Hnd).
    rewrite length_insert in IH. specialize (IH Hall i k' o' Hi Ho).
    by rewrite list_lookup_total_insert_ne in IH.
Qed.

(** ** Recording the outcomes of a batch *)

Lemma process_batch_results_post fleet batch_idx (batch : list nat) :
  ∀ outcomes result updated failed,
    length outcomes = length batch →
    ∃ U F result',
      _process_batch_results fleet batch outcomes batch_idx result updated failed
      = (result', updated ++ U, failed ++ F) ∧
      summary result' = summary result ∧
      U `sublist_of` ids_of fleet batch ∧
      F `sublist_of` ids_of fleet batch ∧
      U ++ F ≡ₚ ids_of fleet batch ∧
      (F = [] → ∀ o, o ∈ outcomes → o.1 = true).
Proof.
  unfold _process_batch_results.
  induction batch as [|k batch IH]; intros [|[ok error] outcomes] result updated failed Hlen;
    try done.
  { exists [], [], result. rewrite !app_nil_r. simpl.
    repeat split; try done. intros _ o Ho. by apply elem_of_nil in Ho. }
  simpl. injection Hlen as Hlen. destruct ok.
  - destruct (IH outcomes
                (node_history_append (instance_id (fleet !!! k))
                                     (node_updated batch_idx) result)
                (updated ++ [instance_id (fleet !!! k)]) failed Hlen)
      as (U & F & result' & -> & Hsum & HU & HF & Hperm & Hok).
    exists (instance_id (fleet !!! k) :: U), F, result'.
    rewrite <- app_assoc. simpl. split; [done|]. split; [done|].
    split; [by constructor|]. split; [by constructor|].
    split; [by constructor|].
    intros HFnil o [->|Ho]%elem_of_cons; [done|by apply Hok].
  - destruct (IH outcomes
                (node_history_append (instance_id (fleet !!! k))
                                     (node_failed batch_idx error) result)
                updated (failed ++ [instance_id (fleet !!! k)]) Hlen)
      as (U & F & result' & -> & Hsum & HU & HF & Hperm & Hok).
    exists U, (instance_id (fleet !!! k) :: F), result'.
    rewrite <- app_assoc. simpl. split; [done|]. split; [done|].
    split; [by constructor|]. split; [by constructor|].
    split; [|done].
    by rewrite <- Permutation_middle, Hperm.
Qed.

(** ** The diff step *)

Lemma find_loop_eq desired (instances : list InstanceState) :
  ∀ k to_update already_updated,
    _find_loop desired k instances to_update already_updated
    = (to_update ++ positions_to_update desired k instances,
       already_updated ++ (instance_id <$> up_to_date desired instances)).
Proof.
  unfold up_to_date.
  induction instances as [|instance instances IH]; intros k to_update already; simpl.
  { by rewrite !app_nil_r. }
  destruct (needs_update desired instance) eqn:Hneeds.
  - rewrite IH, <- app_assoc. rewrite filter_cons_False by (by rewrite Hneeds; auto).
    done.
  - rewrite IH, <- app_assoc. rewrite filter_cons_True by (by rewrite Hneeds).
    done.
Qed.

Lemma positions_to_update_post desired (instances : list InstanceState) :
  ∀ k,
    let P := positions_to_update desired k instances in
    Forall (λ j, k ≤ j < k + length instances)%nat P ∧
    NoDup P ∧
    (λ j, instances !!! (j - k)%nat) <$> P = needing_update desired instances ∧
    (∀ j, (k ≤ j < k + length instances)%nat → j ∉ P →
          needs_update desired (instances !!! (j - k)%nat) ≠ true).
Proof.
  unfold needing_update.
  induction instances as [|instance instances IH]; intros k; simpl.
  { repeat split; try constructor. intros j ?; lia. }
  destruct (IH (S k)) as (Hbound & Hnd & Hmap & Hrest).
  assert (Forall (λ j, k ≤ j < k + S (length instances))%nat
                 (positions_to_update desired (S k) instances)) as Hbound'.
  { eapply Forall_impl; [done|]. intros j Hj. cbv beta in *. lia. }
  assert ((λ j, (instance :: instances) !!! (j - k)%nat)
            <$> positions_to_update desired (S k) instances
          = filter (λ i, needs_update desired i = true) instances) as Hmap'.
  { rewrite <- Hmap. apply Forall_fmap_ext. eapply Forall_impl; [exact Hbound|].
    intros j Hj. cbv beta in *. by replace (j - k)%nat with (S (j - S k)) by lia. }
  assert (∀ j, (S k ≤ j < k + S (length instances))%nat →
               j ∉ positions_to_update desired (S k) instances →
               needs_update desired ((instance :: instances) !!! (j - k)%nat) ≠ true)
    as Hrest'.
  { intros j Hj Hnotin. replace (j - k)%nat with (S (j - S k)) by lia.
    apply Hrest; [lia|done]. }
  destruct (needs_update desired instance) eqn:Hneeds.
  - split; [constructor; [lia|done]|].
    split.
    { constructor; [|done]. intros Hin.
      rewrite Forall_forall in Hbound. specialize (Hbound k Hin). lia. }
    split.
    { rewrite filter_cons_True by done.
      by rewrite fmap_cons, Hmap', Nat.sub_diag. }
    intros j Hj Hnotin. apply not_elem_of_cons in Hnotin as [Hne Hnotin].
    apply Hrest'; [lia|done].
  - split; [done|]. split; [done|]. split.
    { rewrite filter_cons_False by (by rewrite Hneeds). done. }
    intros j Hj Hnotin. destruct (decide (j = k)) as [->|Hne].
    + rewrite Nat.sub_diag. simpl. by rewrite Hneeds.
    + apply Hrest'; [lia|done].
Qed.

Lemma find_instances_post desired (instances : list InstanceState) :
  let '(to_update, already_updated) := _find_instances_to_update instances desired in
  already_updated = instance_id <$> up_to_date desired instances ∧
  ids_of instances to_update = instance_id <$> needing_update desired instances ∧
  Forall (λ k, k < length instances)%nat to_update ∧
  NoDup to_update ∧
  (∀ k, (k < length instances)%nat → k ∉ to_update →
        instance_id (instances !!! k) ∈ already_updated) ∧
  ids_of instances to_update ++ already_updated ≡ₚ instance_id <$> instances.
Proof.
  unfold _find_instances_to_update. rewrite find_loop_eq. simpl.
  destruct (positions_to_update_post desired instances 0)
    as (Hbound & Hnd & Hmap & Hrest).
  assert (ids_of instances (positions_to_update desired 0 instances)
          = instance_id <$> needing_update desired instances) as Hids.
  { rewrite <- Hmap, <- list_fmap_compose. unfold ids_of.
    apply list_fmap_ext. intros _ k _. simpl. by rewrite Nat.sub_0_r. }
  split; [done|]. split; [done|].
  split; [eapply Forall_impl; [exact Hbound|]; intros k Hk; cbv beta in *; lia|].
  split; [done|]. split.
  - intros k Hk Hnotin. specialize (Hrest k ltac:(lia) Hnotin).
    rewrite Nat.sub_0_r in Hrest. apply list_elem_of_fmap_2.
    apply list_elem_of_filter. split; [done|].
    by apply list_elem_of_lookup_total_2.
  - rewrite Hids, <- fmap_app. unfold needing_update, up_to_date.
    by rewrite filter_app_complement.
Qed.

(** ** Snapshot and rollback *)

Lemma take_snapshot_snoc (instances : list InstanceState) (instance : InstanceState) :
  take_snapshot (instances ++ [instance])
  = <[instance_id instance := instance]> (take_snapshot instances).
Proof. unfold take_snapshot. by rewrite foldl_snoc. Qed.

Lemma take_snapshot_lookup (instances : list InstanceState) (id : string) :
  match take_snapshot instances !! id with
  | Some snap => snap ∈ instances ∧ instance_id snap = id
  | None => id ∉ instance_id <$> instances
  end.
Proof.
  induction instances as [|instance instances IH] using rev_ind.
  { unfold take_snapshot. simpl. rewrite lookup_empty. apply not_elem_of_nil. }
  rewrite take_snapshot_snoc.
  destruct (decide (instance_id instance = id)) as [<-|Hne].
  - rewrite lookup_insert_eq. split; [|done].
    apply elem_of_app. right. by apply list_elem_of_singleton.
  - rewrite lookup_insert_ne by done.
    destruct (take_snapshot instances !! id) as [snap|].
    + destruct IH. split; [|done]. apply elem_of_app. by left.
    + rewrite fmap_app. intros [Hin|Hin]%elem_of_app; [done|].
      apply list_elem_of_singleton in Hin. done.
Qed.

Lemma take_snapshot_NoDup (instances : list InstanceState) (instance : InstanceState) :
  NoDup (instance_id <$> instances) → instance ∈ instances →
  take_snapshot instances !! instance_id instance = Some instance.
Proof.
  induction instances as [|x instances IH] using rev_ind; intros Hnd Hin.
  { by apply elem_of_nil in Hin. }
  rewrite take_snapshot_snoc.
  rewrite fmap_app in Hnd. apply NoDup_app in Hnd as (Hnd & Hfresh & _).
  apply elem_of_app in Hin as [Hin|Hin].
  - rewrite lookup_insert_ne; [by apply IH|].
    intros Heq. apply (Hfresh (instance_id instance)).
    + by apply list_elem_of_fmap_2.
    + rewrite <- Heq. apply list_elem_of_fmap_2. by apply list_elem_of_singleton.
  - apply list_elem_of_singleton in Hin as ->. by rewrite lookup_insert_eq.
Qed.

Lemma restore_id snapshot instance :
  instance_id (restore snapshot instance) = instance_id instance.
Proof. unfold restore. by destruct (snapshot !! _). Qed.

Lemma rollback_ids instances snapshot :
  instance_id <$> rollback instances snapshot = instance_id <$> instances.
Proof.
  unfold rollback. rewrite <- list_fmap_compose.
  apply list_fmap_ext. intros _ instance _. apply restore_id.
Qed.

(** Restoring a fleet whose ids are those of the fleet the snapshot was
    taken of, and are distinct, gives that fleet back. *)
Lemma rollback_take_snapshot (f0 fleet : list InstanceState) :
  NoDup (instance_id <$> f0) →
  instance_id <$> fleet = instance_id <$> f0 →
  rollback fleet (take_snapshot f0) = f0.
Proof.
  intros Hnd Hids. apply list_eq. intros k. unfold rollback.
  rewrite list_lookup_fmap.
  assert ((instance_id <$> fleet) !! k = (instance_id <$> f0) !! k) as Hk
    by (by rewrite Hids).
  rewrite !list_lookup_fmap in Hk.
  destruct (fleet !! k) as [instance|], (f0 !! k) as [old|] eqn:Hold;
    simpl in *; try done.
  injection Hk as Hk. f_equal. unfold restore. rewrite Hk.
  rewrite (take_snapshot_NoDup f0 old Hnd) by (by eapply list_elem_of_lookup_2).
  destruct old, instance. simpl in *. by subst.
Qed.

(** ** The batch loop *)

Lemma lookup_total_id_ext (f1 f2 : list InstanceState) (k : nat) :
  instance_id <$> f1 = instance_id <$> f2 →
  instance_id (f1 !!! k) = instance_id (f2 !!! k).
Proof.
  intros Hids.
  assert ((instance_id <$> f1) !! k = (instance_id <$> f2) !! k) as Hk
    by (by rewrite Hids).
  rewrite !list_lookup_fmap in Hk. rewrite !list_lookup_total_alt.
  by destruct (f1 !! k), (f2 !! k); simplify_eq/=.
Qed.

Lemma ids_of_ext (f1 f2 : list InstanceState) (refs : list nat) :
  instance_id <$> f1 = instance_id <$> f2 → ids_of f1 refs = ids_of f2 refs.
Proof.
  intros Hids. apply list_fmap_ext. intros _ k _. by apply lookup_total_id_ext.
Qed.

Lemma ids_of_app fleet refs1 refs2 :
  ids_of fleet (refs1 ++ refs2) = ids_of fleet refs1 ++ ids_of fleet refs2.
Proof. apply fmap_app. Qed.

Lemma ids_length (f1 f2 : list InstanceState) :
  instance_id <$> f1 = instance_id <$> f2 → length f1 = length f2.
Proof. intros Hids. by rewrite <- (length_fmap instance_id f1), Hids, length_fmap. Qed.

Lemma run_batches_loop_post f0 batches deadline desired config snapshot
    (remaining : list (list nat)) :
  ∀ batch_idx st P,
    NoDup (P ++ concat remaining) →
    Forall (λ k, k < length f0)%nat (P ++ concat remaining) →
    loop_inv f0 desired P st →
    let '(r, st') := _run_batches_loop remaining batch_idx batches deadline
                                       desired config snapshot st in
    instance_id <$> ls_fleet st' = instance_id <$> f0 ∧
    match r with
    | inl e => True
    | inr false =>
        loop_inv f0 desired (P ++ concat remaining) st' ∧
        summary (ls_result st') = summary (ls_result st)
    | inr true =>
        rolled_back (ls_result st') = true ∧
        success (ls_result st') = false ∧
        updated (ls_result st') = [] ∧
        skipped (ls_result st') = skipped (ls_result st) ∧
        failed (ls_result st') `sublist_of` ids_of f0 (P ++ concat remaining) ∧
        ∃ fleet_x, instance_id <$> fleet_x = instance_id <$> f0 ∧
                   ls_fleet st' = rollback fleet_x snapshot
    end.
Proof.
  induction remaining as [|batch remaining IH]; intros batch_idx st P Hnd Hbound Hinv.
  { simpl. rewrite app_nil_r. split; [apply Hinv|done]. }
  cbn [_run_batches_loop concat] in *.
  destruct Hinv as [Hids Hupd Hfail Hperm Hdes].
  pose proof (gather_post deadline desired config batch (ls_fleet st) (ls_injector st))
    as Hgather.
  destruct (gather _ _ _ _ _ _) as [[r fleet'] inj'].
  destruct Hgather as (Hids' & Hframe & Hr).
  rewrite Hids in Hids'.
  destruct r as [e|outcomes]; [done|].
  destruct Hr as [Hlen Hsettled].
  assert (NoDup batch ∧ (∀ k, k ∈ P → k ∉ batch)) as [Hndb Hdisj].
  { apply NoDup_app in Hnd as (_ & Hdisj & Hnd).
    apply NoDup_app in Hnd as (Hndb & _ & _). split; [done|].
    intros k Hk Hkb. apply (Hdisj k Hk). apply elem_of_app. by left. }
  assert (Forall (λ k, k < length (ls_fleet st))%nat batch) as Hboundb.
  { rewrite (ids_length _ _ Hids).
    apply Forall_app in Hbound as [_ Hbound].
    by apply Forall_app in Hbound as [Hbound _]. }
  specialize (Hsettled Hndb Hboundb).
  destruct (process_batch_results_post fleet' batch_idx batch outcomes
              (history_append
                 (batch_start batch_idx (ids_of (ls_fleet st) batch))
                 (ls_result st))
              (ls_updated st) (ls_failed st) Hlen)
    as (U & F & result' & -> & Hsum & HU & HF & HUF & Hok).
  rewrite (ids_of_ext fleet' f0) in HU, HF, HUF by done.
  destruct (_check_failure_limits _ _ _).
  - (* abort and roll back *)
    simpl. split; [by rewrite rollback_ids|].
    split; [done|]. split; [done|]. split; [done|].
    split; [by injection Hsum|]. split; [|by exists fleet'].
    rewrite app_assoc, ids_of_app. apply sublist_inserts_r.
    rewrite ids_of_app. by apply sublist_app.
  - (* next batch *)
    match goal with
    | |- context [_run_batches_loop _ _ _ _ _ _ _ ?st1] =>
        specialize (IH (S batch_idx) st1 (P ++ batch))
    end.
    rewrite <- app_assoc in IH. specialize (IH Hnd Hbound).
    destruct (_run_batches_loop _ _ _ _ _ _ _ _) as [r st'].
    assert (loop_inv f0 desired (P ++ batch)
              (mkLoop (history_append
                         (batch_completed batch_idx
                            (length (ls_updated st ++ U))
                            (length (ls_failed st ++ F))) result')
                      (ls_updated st ++ U) (ls_failed st ++ F) fleet' inj'))
      as Hinv'.
    { constructor; simpl.
      - done.
      - rewrite ids_of_app. by apply sublist_app.
      - rewrite ids_of_app. by apply sublist_app.
      - rewrite ids_of_app, <- Hperm, <- HUF.
        rewrite <- !app_assoc. apply Permutation_app_head.
        rewrite !app_assoc. apply Permutation_app_tail.
        apply Permutation_app_comm.
      - intros [Hfnil HFnil]%app_eq_nil. apply Forall_app. split.
        + specialize (Hdes Hfnil). rewrite Forall_forall in Hdes |- *.
          intros k Hk. specialize (Hdes k Hk).
          rewrite !list_lookup_total_alt in *.
          by rewrite Hframe by (by apply Hdisj).
        + apply Forall_lookup_2. intros i k Hi.
          destruct (lookup_lt_is_Some_2 outcomes i) as [o Ho].
          { rewrite Hlen. by eapply lookup_lt_Some. }
          specialize (Hsettled i k o Hi Ho). unfold settled in Hsettled.
          rewrite (Hok HFnil o) in Hsettled by (by eapply list_elem_of_lookup_2).
          by rewrite Hsettled. }
    specialize (IH Hinv'). destruct IH as [Hids'' IH].
    split; [done|]. destruct r as [e|[|]]; [done| |].
    + destruct IH as (? & ? & ? & Hskip & ? & ?).
      repeat (split; [done|]). split; [|by split].
      rewrite Hskip. simpl. by injection Hsum.
    + destruct IH as [? Hsum']. split; [done|]. by rewrite Hsum'.
Qed.

(** ** The whole of [deploy] *)

Lemma plan_batches_concat {A} (instances : list A) (batch_size : Z) batches :
  plan_batches instances batch_size = inr batches → concat batches = instances.
Proof.
  unfold plan_batches. destruct (Z.leb_spec batch_size 0) as [Hle|Hgt]; [done|].
  intros [= <-]. set (n := Z.to_nat batch_size).
  rewrite py_range_0, <- list_fmap_compose.
  etransitivity; [apply (concat_slices instances n)|].
  apply take_ge. destruct (Nat.ltb_spec 0 (length instances)) as [Hpos|Hz]; [|lia].
  pose proof (range_len_bounds (length instances) n ltac:(lia) Hpos) as [? ?]. lia.
Qed.

(** What a call of [deploy] has done, by the way it ended. *)
Lemma deploy_post deadline w desired config dry_run :
  let f0 := fleet w in
  let to_update := (_find_instances_to_update f0 desired).1 in
  let already_updated := (_find_instances_to_update f0 desired).2 in
  let '(o, w') := deploy deadline w desired config dry_run in
  instance_id <$> fleet w' = instance_id <$> f0 ∧
  match o with
  | Raised e => True
  | Returned r =>
      skipped r = already_updated ∧
      if dry_run || (length to_update =? 0)%nat then
        success r = true ∧ updated r = [] ∧ failed r = [] ∧
        rolled_back r = false ∧ fleet w' = f0
      else if rolled_back r then
        success r = false ∧ updated r = [] ∧
        failed r `sublist_of` ids_of f0 to_update ∧
        ∃ fleet_x, instance_id <$> fleet_x = instance_id <$> f0 ∧
                   fleet w' = rollback fleet_x (take_snapshot f0)
      else
        (success r = true ↔ failed r = []) ∧
        updated r `sublist_of` ids_of f0 to_update ∧
        failed r `sublist_of` ids_of f0 to_update ∧
        updated r ++ failed r ≡ₚ ids_of f0 to_update ∧
        (failed r = [] →
         Forall (λ k, at_desired desired (fleet w' !!! k)) to_update)
  end.
Proof.
  intros f0 to_update already. subst f0 to_update already. unfold deploy.
  destruct (deployment_in_progress (current w)); [done|].
  pose proof (find_instances_post desired (fleet w)) as Hfind.
  destruct (_find_instances_to_update (fleet w) desired) as [to_update already].
  destruct Hfind as (_ & _ & Hbound & Hnd & _ & _). cbn [fst snd].
  destruct (dry_run || (length to_update =? 0)%nat) eqn:Hshort.
  { unfold _handle_dry_run_or_no_updates.
    destruct dry_run; [done|]. simpl in Hshort. by rewrite Hshort. }
  unfold deploy_try. cbn [fleet current injector].
  destruct (plan_batches to_update (batch_size config)) as [e|batches] eqn:Hplan;
    [done|].
  apply plan_batches_concat in Hplan.
  pose proof (run_batches_loop_post (fleet w) batches deadline desired config
                (take_snapshot (fleet w)) batches 1%nat
                (mkLoop (set_skipped already new_result) [] [] (fleet w) (injector w))
                []) as Hloop.
  cbn [app] in Hloop. rewrite Hplan in Hloop.
  specialize (Hloop Hnd Hbound).
  unfold _run_batches.
  destruct (_run_batches_loop _ _ _ _ _ _ _ _) as [r st'].
  destruct Hloop as [Hids Hr].
  { constructor; simpl; try done; by constructor. }
  destruct r as [e|[|]]; [done| |]; cbn [fleet].
  - (* aborted *)
    destruct Hr as (Hrb & Hsucc & Hupd & Hskip & Hfail & Hx).
    split; [done|]. split; [done|]. by rewrite Hrb.
  - (* completed *)
    destruct Hr as [[_ Hupd Hfail Hperm Hdes] Hsum].
    split; [done|]. unfold _finish_deployment. simpl.
    injection Hsum as _ _ _ Hskip _ Hrb.
    split; [done|]. rewrite Hrb.
    split; [|done]. rewrite Nat.eqb_eq. apply length_zero_iff_nil.
Qed.

(** C1 (amended).  For a fleet with distinct instance ids and every call
    of [deploy] that returns a result: no id occurs twice in [updated],
    [failed] and [skipped] taken together (so the three lists are pairwise
    disjoint), every id in them is the id of an input instance, and on a
    run that is neither a dry run nor aborted the three lists together
    hold exactly the ids of the input instances. *)
Theorem deploy_partition
    (deadline : nat → option nat) (w : World) (desired : SystemState)
    (config : DeploymentConfig) (dry_run : bool)
    (r : DeploymentResult) (w' : World) :
  NoDup (instance_id <$> fleet w) →
  deploy deadline w desired config dry_run = (Returned r, w') →
  NoDup (updated r ++ failed r ++ skipped r) ∧
  (∀ id, id ∈ updated r ++ failed r ++ skipped r → id ∈ instance_id <$> fleet w) ∧
  (dry_run = false → rolled_back r = false →
   updated r ++ failed r ++ skipped r ≡ₚ instance_id <$> fleet w).
Proof.
  intros Hnd Hdeploy.
  pose proof (deploy_post deadline w desired config dry_run) as Hpost.
  pose proof (find_instances_post desired (fleet w)) as Hfind.
  rewrite Hdeploy in Hpost. cbv zeta in Hpost.
  destruct (_find_instances_to_update (fleet w) desired) as [to_update already].
  cbn [fst snd] in Hpost.
  destruct Hfind as (_ & _ & _ & _ & _ & Hall).
  destruct Hpost as (_ & Hskip & Hpost).
  assert (NoDup (ids_of (fleet w) to_update ++ already)) as Hnd'
    by (by rewrite Hall).
  destruct (dry_run || (length to_update =? 0)%nat) eqn:Hshort;
    [|destruct (rolled_back r) eqn:Hrb].
  - destruct Hpost as (_ & -> & -> & _ & _). rewrite Hskip. simpl.
    split; [by apply NoDup_app in Hnd' as (_ & _ & ?)|].
    split.
    + intros id Hid. rewrite <- Hall. apply elem_of_app. by right.
    + intros -> _. simpl in Hshort. apply Nat.eqb_eq in Hshort.
      apply length_zero_iff_nil in Hshort. by rewrite Hshort in Hall.
  - destruct Hpost as (_ & -> & Hfail & _). rewrite Hskip. simpl.
    assert (failed r ++ already `sublist_of` ids_of (fleet w) to_update ++ already)
      as Hsub by (by apply sublist_app).
    split; [by eapply sublist_NoDup|].
    split; [|done].
    intros id Hid. rewrite <- Hall. by eapply elem_of_sublist.
  - destruct Hpost as (_ & _ & _ & Hperm & _). rewrite Hskip.
    assert (updated r ++ failed r ++ already ≡ₚ instance_id <$> fleet w) as Hperm'.
    { by rewrite app_assoc, Hperm. }
    split; [by rewrite Hperm'|]. split; [|done].
    intros id. by rewrite Hperm'.
Qed.

(** C2.  When [deploy] returns a result with [rolled_back] true, the
    result has [success] false, and every instance has the code version,
    configuration version and health that the pre-deployment snapshot
    holds under its id; for a fleet with distinct ids the whole fleet is
    as it was before the call. *)
Theorem deploy_rollback_exact
    (deadline : nat → option nat) (w : World) (desired : SystemState)
    (config : DeploymentConfig) (dry_run : bool)
    (r : DeploymentResult) (w' : World) :
  deploy deadline w desired config dry_run = (Returned r, w') →
  rolled_back r = true →
  success r = false ∧
  length (fleet w') = length (fleet w) ∧
  (∀ k instance', fleet w' !! k = Some instance' →
     ∃ snap, take_snapshot (fleet w) !! instance_id instance' = Some snap ∧
             code_version instance' = code_version snap ∧
             configuration_version instance' = configuration_version snap ∧
             health instance' = health snap) ∧
  (NoDup (instance_id <$> fleet w) → fleet w' = fleet w).
Proof.
  intros Hdeploy Hrb.
  pose proof (deploy_post deadline w desired config dry_run) as Hpost.
  rewrite Hdeploy in Hpost. cbv zeta in Hpost.
  destruct Hpost as (Hids & _ & Hpost).
  destruct (dry_run || _); [destruct Hpost as (_ & _ & _ & ? & _); congruence|].
  rewrite Hrb in Hpost.
  destruct Hpost as (Hsucc & _ & _ & fleet_x & Hidx & Hfleet).
  split; [done|]. split; [by apply ids_length|]. split.
  - intros k instance' Hk. rewrite Hfleet in Hk. unfold rollback in Hk.
    rewrite list_lookup_fmap in Hk.
    destruct (fleet_x !! k) as [x|] eqn:Hx; [|done].
    injection Hk as <-. rewrite restore_id.
    pose proof (take_snapshot_lookup (fleet w) (instance_id x)) as Hsnap.
    unfold restore.
    destruct (take_snapshot (fleet w) !! instance_id x) as [snap|]; [by exists snap|].
    exfalso. apply Hsnap. rewrite <- Hidx.
    apply list_elem_of_fmap_2. by eapply list_elem_of_lookup_2.
  - intros Hnd. rewrite Hfleet. by apply rollback_take_snapshot.
Qed.

(** C4 (amended).  When a call of [deploy] that is not a dry run returns
    with [success] true, every instance whose id is not in [skipped] has
    the desired code and configuration versions and is HEALTHY. *)
Theorem deploy_success_at_desired
    (deadline : nat → option nat) (w : World) (desired : SystemState)
    (config : DeploymentConfig) (r : DeploymentResult) (w' : World) :
  deploy deadline w desired config false = (Returned r, w') →
  success r = true →
  ∀ k instance', fleet w' !! k = Some instance' →
                 instance_id instance' ∉ skipped r →
                 at_desired desired instance'.
Proof.
  intros Hdeploy Hsucc k instance' Hk Hskipped.
  pose proof (deploy_post deadline w desired config false) as Hpost.
  pose proof (find_instances_post desired (fleet w)) as Hfind.
  rewrite Hdeploy in Hpost. cbv zeta in Hpost.
  destruct (_find_instances_to_update (fleet w) desired) as [to_update already].
  cbn [fst snd] in Hpost.
  destruct Hfind as (_ & _ & _ & _ & Hrest & _).
  destruct Hpost as (Hids & Hskip & Hpost).
  assert (fleet w' !!! k = instance') as Htotal
    by (by apply list_lookup_total_correct).
  assert (k < length (fleet w))%nat as Hlt.
  { rewrite <- (ids_length _ _ Hids). by eapply lookup_lt_Some. }
  assert (k ∈ to_update) as Hin.
  { destruct (decide (k ∈ to_update)) as [|Hnotin]; [done|].
    exfalso. apply Hskipped. rewrite Hskip, <- Htotal.
    rewrite (lookup_total_id_ext _ _ k Hids). by apply Hrest. }
  simpl in Hpost. destruct (length to_update =? 0)%nat eqn:Hlen.
  { apply Nat.eqb_eq, length_zero_iff_nil in Hlen. subst.
    by apply elem_of_nil in Hin. }
  destruct (rolled_back r); [destruct Hpost; congruence|].
  destruct Hpost as (Hiff & _ & _ & _ & Hdes).
  specialize (Hdes (proj1 Hiff Hsucc)). rewrite Forall_forall in Hdes.
  rewrite <- Htotal. by apply Hdes.
Qed.

(** C6 (amended).  For every call of [deploy] that returns a result, each
    of the lists [updated] and [failed] keeps the relative input order of
    the instances that needed updates (each is a subsequence of their
    ids in input order); on a run that is neither a dry run nor aborted,
    the two lists together hold exactly those ids. *)
Theorem deploy_order_preserved
    (deadline : nat → option nat) (w : World) (desired : SystemState)
    (config : DeploymentConfig) (dry_run : bool)
    (r : DeploymentResult) (w' : World) :
  deploy deadline w desired config dry_run = (Returned r, w') →
  let needing := instance_id <$> needing_update desired (fleet w) in
  updated r `sublist_of` needing ∧
  failed r `sublist_of` needing ∧
  (dry_run = false → rolled_back r = false → updated r ++ failed r ≡ₚ needing).
Proof.
  intros Hdeploy needing. subst needing.
  pose proof (deploy_post deadline w desired config dry_run) as Hpost.
  pose proof (find_instances_post desired (fleet w)) as Hfind.
  rewrite Hdeploy in Hpost. cbv zeta in Hpost.
  destruct (_find_instances_to_update (fleet w) desired) as [to_update already].
  cbn [fst snd] in Hpost.
  destruct Hfind as (_ & <- & _ & _ & _ & _).
  destruct Hpost as (_ & _ & Hpost).
  destruct (dry_run || (length to_update =? 0)%nat) eqn:Hshort;
    [|destruct (rolled_back r)].
  - destruct Hpost as (_ & -> & -> & _ & _).
    split; [apply sublist_nil_l|]. split; [apply sublist_nil_l|].
    intros -> _. simpl in Hshort.
    apply Nat.eqb_eq, length_zero_iff_nil in Hshort. by subst.
  - destruct Hpost as (_ & -> & ? & _).
    split; [apply sublist_nil_l|]. by split.
  - by destruct Hpost as (_ & ? & ? & ? & _).
Qed.

(** C10.  [deploy] and [rollback] never add, remove or reorder the
    elements of the instance collection: after the call, on every exit
    path, the fleet has the same length and at each position the
    instance with the same [instance_id]; only [code_version],
    [configuration_version] and [health] of an instance can differ. *)
Theorem deploy_frame
    (deadline : nat → option nat) (w : World) (desired : SystemState)
    (config : DeploymentConfig) (dry_run : bool)
    (instances : list InstanceState) (snapshot : gmap string InstanceState) :
  let w' := (deploy deadline w desired config dry_run).2 in
  length (fleet w') = length (fleet w) ∧
  instance_id <$> fleet w' = instance_id <$> fleet w ∧
  length (rollback instances snapshot) = length instances ∧
  instance_id <$> rollback instances snapshot = instance_id <$> instances.
Proof.
  intros w'. subst w'.
  pose proof (deploy_post deadline w desired config dry_run) as Hpost.
  cbv zeta in Hpost.
  destruct (deploy deadline w desired config dry_run) as [o w'].
  destruct Hpost as [Hids _]. simpl.
  split; [by apply ids_length|]. split; [done|].
  split; [apply length_fmap|apply rollback_ids].
Qed.

(** C1, as stated, fails on a run that aborts: id0 was updated in the
    first batch and rolled back, and is in none of the three lists
    (neither is id4, whose batch never ran). *)
Lemma partition_fails_on_abort :
  Scenario.abort_run.1 = Returned (Scenario.result_of Scenario.abort_run) ∧
  rolled_back (Scenario.result_of Scenario.abort_run) = true ∧
  NoDup (instance_id <$> Scenario.fleet5) ∧
  "id0"%string ∈ instance_id <$> Scenario.fleet5 ∧
  updated (Scenario.result_of Scenario.abort_run)
    ++ failed (Scenario.result_of Scenario.abort_run)
    ++ skipped (Scenario.result_of Scenario.abort_run) = ["id1"; "id3"]%string ∧
  "id0"%string ∉ updated (Scenario.result_of Scenario.abort_run)
    ++ failed (Scenario.result_of Scenario.abort_run)
    ++ skipped (Scenario.result_of Scenario.abort_run).
Proof.
  split; [by vm_compute|]. split; [by vm_compute|].
  split; [apply (bool_decide_unpack _); by vm_compute|].
  split; [apply (bool_decide_unpack _); by vm_compute|].
  split; [by vm_compute|].
  apply (bool_decide_unpack _). by vm_compute.
Qed.

Lemma deploy_partition_witness :
  NoDup (instance_id <$> Scenario.fleet2) ∧
  Scenario.partial_run
  = (Returned (Scenario.result_of Scenario.partial_run), Scenario.partial_run.2) ∧
  NoDup (updated (Scenario.result_of Scenario.partial_run)
           ++ failed (Scenario.result_of Scenario.partial_run)
           ++ skipped (Scenario.result_of Scenario.partial_run)) ∧
  (∀ id, id ∈ updated (Scenario.result_of Scenario.partial_run)
              ++ failed (Scenario.result_of Scenario.partial_run)
              ++ skipped (Scenario.result_of Scenario.partial_run) →
         id ∈ instance_id <$> Scenario.fleet2) ∧
  (false = false →
   rolled_back (Scenario.result_of Scenario.partial_run) = false →
   updated (Scenario.result_of Scenario.partial_run)
     ++ failed (Scenario.result_of Scenario.partial_run)
     ++ skipped (Scenario.result_of Scenario.partial_run)
   ≡ₚ instance_id <$> Scenario.fleet2).
Proof.
  assert (NoDup (instance_id <$> Scenario.fleet2)) as Hnd.
  { apply (bool_decide_unpack _). vm_compute. exact I. }
  assert (Scenario.partial_run
          = (Returned (Scenario.result_of Scenario.partial_run),
             Scenario.partial_run.2)) as Hrun.
  { vm_compute. reflexivity. }
  split; [exact Hnd|]. split; [exact Hrun|].
  exact (deploy_partition Scenario.no_deadline
           (mkWorld Scenario.fleet2 Scenario.current0 (Scenario.failing [("id0"%string, 1)]))
           Scenario.desired (Scenario.config 2 None) false
           (Scenario.result_of Scenario.partial_run) Scenario.partial_run.2
           Hnd Hrun).
Defined.

Lemma deploy_rollback_exact_witness :
  Scenario.abort_run
  = (Returned (Scenario.result_of Scenario.abort_run), Scenario.abort_run.2) ∧
  rolled_back (Scenario.result_of Scenario.abort_run) = true ∧
  success (Scenario.result_of Scenario.abort_run) = false ∧
  length (fleet Scenario.abort_run.2) = length Scenario.fleet5 ∧
  (∀ k instance', fleet Scenario.abort_run.2 !! k = Some instance' →
     ∃ snap, take_snapshot Scenario.fleet5 !! instance_id instance' = Some snap ∧
             code_version instance' = code_version snap ∧
             configuration_version instance' = configuration_version snap ∧
             health instance' = health snap) ∧
  (NoDup (instance_id <$> Scenario.fleet5) →
   fleet Scenario.abort_run.2 = Scenario.fleet5).
Proof.
  assert (Scenario.abort_run
          = (Returned (Scenario.result_of Scenario.abort_run),
             Scenario.abort_run.2)) as Hrun.
  { vm_compute. reflexivity. }
  assert (rolled_back (Scenario.result_of Scenario.abort_run) = true) as Hrb.
  { vm_compute. reflexivity. }
  split; [exact Hrun|]. split; [exact Hrb|].
  exact (deploy_rollback_exact Scenario.no_deadline
           (mkWorld Scenario.fleet5 Scenario.current0
                    (Scenario.failing [("id1"%string, 1); ("id3"%string, 1)]))
           Scenario.desired (Scenario.config 2 (Some 1)) false
           (Scenario.result_of Scenario.abort_run) Scenario.abort_run.2
           Hrun Hrb).
Defined.

(** C3, as stated, fails on the re-entry guard: the call raises and the
    flag, which was true on entry, is still true. *)
Lemma flag_still_set_after_reentry :
  Scenario.reentrant_run.1 = Raised (RuntimeError "deployment already in progress") ∧
  deployment_in_progress (current Scenario.reentrant_run.2) = true.
Proof. split; by vm_compute. Qed.

Lemma deploy_clears_flag_witness :
  deployment_in_progress Scenario.current0 = false ∧
  Scenario.bad_config_run.1 = Raised (ValueError "batch_size must be > 0") ∧
  deployment_in_progress (current Scenario.bad_config_run.2) = false.
Proof.
  split; [reflexivity|]. split; [vm_compute; reflexivity|].
  exact (deploy_clears_flag Scenario.no_deadline
           (mkWorld Scenario.fleet2 Scenario.current0 (Scenario.failing []))
           Scenario.desired (Scenario.config 0 None) false eq_refl).
Defined.

(** C4, as stated, fails on a dry run: the call returns with [success]
    true, id0 is not skipped and still has its old versions. *)
Lemma dry_run_success_not_at_desired :
  Scenario.dry_run.1 = Returned (Scenario.result_of Scenario.dry_run) ∧
  success (Scenario.result_of Scenario.dry_run) = true ∧
  fleet Scenario.dry_run.2 !! 0%nat = Some (Scenario.old_instance "id0") ∧
  ("id0"%string ∉ skipped (Scenario.result_of Scenario.dry_run)) ∧
  ¬ at_desired Scenario.desired (Scenario.old_instance "id0").
Proof.
  split; [by vm_compute|]. split; [by vm_compute|]. split; [by vm_compute|].
  split; [apply (bool_decide_unpack _); by vm_compute|].
  intros [Hcode _]. discriminate Hcode.
Qed.

Lemma deploy_success_at_desired_witness :
  Scenario.success_run
  = (Returned (Scenario.result_of Scenario.success_run), Scenario.success_run.2) ∧
  success (Scenario.result_of Scenario.success_run) = true ∧
  ∀ k instance', fleet Scenario.success_run.2 !! k = Some instance' →
                 instance_id instance' ∉ skipped (Scenario.result_of Scenario.success_run) →
                 at_desired Scenario.desired instance'.
Proof.
  assert (Scenario.success_run
          = (Returned (Scenario.result_of Scenario.success_run),
             Scenario.success_run.2)) as Hrun.
  { vm_compute. reflexivity. }
  assert (success (Scenario.result_of Scenario.success_run) = true) as Hsucc.
  { vm_compute. reflexivity. }
  split; [exact Hrun|]. split; [exact Hsucc|].
  exact (deploy_success_at_desired Scenario.no_deadline
           (mkWorld Scenario.fleet5 Scenario.current0 (Scenario.failing []))
           Scenario.desired (Scenario.config 2 None)
           (Scenario.result_of Scenario.success_run) Scenario.success_run.2
           Hrun Hsucc).
Defined.

(** C6, as stated, fails when an earlier instance fails and a later one
    succeeds: id0 and id1 both needed an update, id0 is first in the
    input, the run does not abort, and [updated ++ failed] is [id1; id0]. *)
Lemma concatenation_breaks_input_order :
  Scenario.partial_run.1 = Returned (Scenario.result_of Scenario.partial_run) ∧
  rolled_back (Scenario.result_of Scenario.partial_run) = false ∧
  instance_id <$> needing_update Scenario.desired Scenario.fleet2
  = ["id0"; "id1"]%string ∧
  updated (Scenario.result_of Scenario.partial_run)
    ++ failed (Scenario.result_of Scenario.partial_run) = ["id1"; "id0"]%string ∧
  ¬ appears_before (updated (Scenario.result_of Scenario.partial_run)
                      ++ failed (Scenario.result_of Scenario.partial_run))
                   "id0" "id1".
Proof.
  split; [by vm_compute|]. split; [by vm_compute|]. split; [by vm_compute|].
  assert (updated (Scenario.result_of Scenario.partial_run)
            ++ failed (Scenario.result_of Scenario.partial_run)
          = ["id1"; "id0"]%string) as Heq by (by vm_compute).
  split; [exact Heq|]. rewrite Heq.
  intros (i & j & Hi & Hj & Hlt).
  destruct i as [|[|i]]; simpl in Hi; try discriminate Hi.
  destruct j as [|[|j]]; simpl in Hj; try discriminate Hj. lia.
Qed.

Lemma deploy_order_preserved_witness :
  Scenario.partial_run
  = (Returned (Scenario.result_of Scenario.partial_run), Scenario.partial_run.2) ∧
  updated (Scenario.result_of Scenario.partial_run)
    `sublist_of` (instance_id <$> needing_update Scenario.desired Scenario.fleet2) ∧
  failed (Scenario.result_of Scenario.partial_run)
    `sublist_of` (instance_id <$> needing_update Scenario.desired Scenario.fleet2) ∧
  (false = false →
   rolled_back (Scenario.result_of Scenario.partial_run) = false →
   updated (Scenario.result_of Scenario.partial_run)
     ++ failed (Scenario.result_of Scenario.partial_run)
   ≡ₚ instance_id <$> needing_update Scenario.desired Scenario.fleet2).
Proof.
  assert (Scenario.partial_run
          = (Returned (Scenario.result_of Scenario.partial_run),
             Scenario.partial_run.2)) as Hrun.
  { vm_compute. reflexivity. }
  split; [exact Hrun|].
  exact (deploy_order_preserved Scenario.no_deadline
           (mkWorld Scenario.fleet2 Scenario.current0
                    (Scenario.failing [("id0"%string, 1)]))
           Scenario.desired (Scenario.config 2 None) false
           (Scenario.result_of Scenario.partial_run) Scenario.partial_run.2
           Hrun).
Defined.

Lemma deploy_reentry_guard_witness :
  deployment_in_progress Scenario.busy = true ∧
  Scenario.reentrant_run
  = (Raised (RuntimeError "deployment already in progress"),
     mkWorld Scenario.fleet2 Scenario.busy (Scenario.failing [])).
Proof.
  split; [reflexivity|].
  exact (deploy_reentry_guard Scenario.no_deadline
           (mkWorld Scenario.fleet2 Scenario.busy (Scenario.failing []))
           Scenario.desired (Scenario.config 2 None) false eq_refl).
Defined.

(** The failure rate is a binary64 value: 7 failures of 25 give
    28.000000000000004, which is greater than a threshold of 28. *)
Example failure_rate_7_of_25 :
  _check_failure_limits 25 7
    (mkConfig 5 None (Some (PyFloat.of_int 28)) None 0 (PyFloat.int_truediv 1 10))
  = true.
Proof. by vm_compute. Qed.

(** * Further properties of the code *)

#[local] Transparent should_fail backoff_time suspend.

(** ** Rollback executor *)

Lemma restore_restore snapshot instance :
  restore snapshot (restore snapshot instance) = restore snapshot instance.
Proof.
  unfold restore at 1. rewrite restore_id. unfold restore.
  by destruct (snapshot !! instance_id instance).
Qed.

(** X1.  [rollback] is idempotent: restoring a second time from the same
    snapshot changes nothing. *)
Theorem rollback_idempotent
    (instances : list InstanceState) (snapshot : gmap string InstanceState) :
  rollback (rollback instances snapshot) snapshot = rollback instances snapshot.
Proof.
  unfold rollback. rewrite <- list_fmap_compose.
  apply list_fmap_ext. intros _ instance _. apply restore_restore.
Qed.

(** X2.  [rollback] looks the snapshot up under the instance's own id:
    an instance whose id is in the snapshot gets the three fields stored
    there and keeps its id, whatever id the stored record carries; an
    instance whose id is absent is left untouched.  In particular an
    empty snapshot changes nothing. *)
Theorem rollback_lookup
    (instances : list InstanceState) (snapshot : gmap string InstanceState)
    (k : nat) (instance : InstanceState) :
  instances !! k = Some instance →
  (∀ snap, snapshot !! instance_id instance = Some snap →
     rollback instances snapshot !! k
     = Some (mkInstance (instance_id instance) (code_version snap)
                        (configuration_version snap) (health snap))) ∧
  (snapshot !! instance_id instance = None →
     rollback instances snapshot !! k = Some instance) ∧
  rollback instances ∅ = instances.
Proof.
  intros Hk. unfold rollback. rewrite list_lookup_fmap, Hk. simpl.
  unfold restore. split; [|split].
  - by intros snap ->.
  - by intros ->.
  - rewrite <- (list_fmap_id instances) at 2. apply list_fmap_ext.
    intros _ i _. by rewrite lookup_empty.
Qed.

(** ** Snapshot *)

(** X3.  The snapshot has an entry for exactly the ids of the instances
    it was taken of, and when several instances share an id the entry is
    the state of the last of them. *)
Theorem take_snapshot_entries (instances : list InstanceState) :
  (∀ id, is_Some (take_snapshot instances !! id) ↔ id ∈ instance_id <$> instances) ∧
  (∀ before instance after,
     instances = before ++ instance :: after →
     instance_id instance ∉ instance_id <$> after →
     take_snapshot instances !! instance_id instance = Some instance).
Proof.
  split.
  - intros id. pose proof (take_snapshot_lookup instances id) as Hl.
    destruct (take_snapshot instances !! id) as [snap|].
    + destruct Hl as [Hin <-]. split; [|eauto]. intros _.
      by apply list_elem_of_fmap_2.
    + split; [by intros [? ?]|done].
  - intros before instance after -> Hafter.
    induction after as [|x after IH] using rev_ind.
    + by rewrite take_snapshot_snoc, lookup_insert_eq.
    + rewrite app_comm_cons, app_assoc, take_snapshot_snoc.
      rewrite fmap_app in Hafter. apply not_elem_of_app in Hafter as [Hafter Hx].
      rewrite lookup_insert_ne; [by apply IH|].
      intros Heq. apply Hx. rewrite <- Heq. simpl. by left.
Qed.

(** X4.  For a fleet with distinct ids, rolling back with the snapshot
    taken before [deploy] restores the fleet exactly, however the call
    ended: completed, partly failed, aborted or raised. *)
Theorem rollback_after_deploy
    (deadline : nat → option nat) (w : World) (desired : SystemState)
    (config : DeploymentConfig) (dry_run : bool) :
  NoDup (instance_id <$> fleet w) →
  rollback (fleet (deploy deadline w desired config dry_run).2)
           (take_snapshot (fleet w))
  = fleet w.
Proof.
  intros Hnd. apply rollback_take_snapshot; [done|].
  pose proof (deploy_post deadline w desired config dry_run) as Hpost.
  cbv zeta in Hpost.
  destruct (deploy deadline w desired config dry_run) as [o w'].
  by destruct Hpost as [Hids _].
Qed.

(** ** The diff step and the short-circuits *)

Lemma needs_update_matches desired i :
  needs_update desired i = true ↔ ¬ matches desired i.
Proof.
  unfold needs_update, matches.
  destruct (String.eqb_spec (code_version i) (sys_code_version desired)),
           (String.eqb_spec (configuration_version i)
                            (sys_configuration_version desired));
    simpl; intuition congruence.
Qed.

Lemma up_to_date_matches desired (instances : list InstanceState) :
  up_to_date desired instances = filter (matches desired) instances.
Proof.
  unfold up_to_date. apply list_filter_iff. intros i.
  rewrite needs_update_matches. destruct (decide (matches desired i)); tauto.
Qed.

Lemma needing_update_matches desired (instances : list InstanceState) :
  needing_update desired instances = filter (λ i, ¬ matches desired i) instances.
Proof.
  unfold needing_update. apply list_filter_iff. intros i.
  apply needs_update_matches.
Qed.

Lemma find_instances_length desired (instances : list InstanceState) :
  length (_find_instances_to_update instances desired).1
  = length (needing_update desired instances).
Proof.
  pose proof (find_instances_post desired instances) as Hfind.
  destruct (_find_instances_to_update instances desired) as [to_update already].
  destruct Hfind as (_ & Hids & _). simpl.
  rewrite <- (length_fmap instance_id (needing_update desired instances)), <- Hids.
  unfold ids_of. by rewrite length_fmap.
Qed.

(** X5.  Whenever [deploy] returns a result, [skipped] lists, in input
    order, the ids of exactly the instances whose code and configuration
    versions both equal the desired ones; the health of an instance
    plays no part. *)
Theorem deploy_skipped
    (deadline : nat → option nat) (w : World) (desired : SystemState)
    (config : DeploymentConfig) (dry_run : bool)
    (r : DeploymentResult) (w' : World) :
  deploy deadline w desired config dry_run = (Returned r, w') →
  skipped r = instance_id <$> filter (matches desired) (fleet w).
Proof.
  intros Hdeploy.
  pose proof (deploy_post deadline w desired config dry_run) as Hpost.
  pose proof (find_instances_post desired (fleet w)) as Hfind.
  rewrite Hdeploy in Hpost. cbv zeta in Hpost.
  destruct (_find_instances_to_update (fleet w) desired) as [to_update already].
  destruct Hfind as (-> & _). destruct Hpost as (_ & -> & _). simpl.
  by rewrite up_to_date_matches.
Qed.

(** X6.  A dry run mutates nothing: the instances, [current] (versions
    and flag) and the injector are as before; the result has [success]
    true, empty [updated] and [failed], and a history of one [dry_run]
    event counting the instances that need an update.  This holds for
    every configuration, also one with an invalid [batch_size]. *)
Theorem deploy_dry_run
    (deadline : nat → option nat) (w : World) (desired : SystemState)
    (config : DeploymentConfig) :
  deployment_in_progress (current w) = false →
  deploy deadline w desired config true
  = (Returned (mkResult true [] []
                 (instance_id <$> filter (matches desired) (fleet w))
                 None false
                 [dry_run_event (length (filter (λ i, ¬ matches desired i) (fleet w)))]
                 ∅),
     w).
Proof.
  intros Hflag. unfold deploy. rewrite Hflag.
  pose proof (find_instances_post desired (fleet w)) as Hfind.
  pose proof (find_instances_length desired (fleet w)) as Hlen.
  destruct (_find_instances_to_update (fleet w) desired) as [to_update already].
  destruct Hfind as (-> & _). simpl in *.
  rewrite Hlen, up_to_date_matches, needing_update_matches.
  by destruct w.
Qed.

Lemma filter_all {A} (P : A → Prop) `{!∀ x, Decision (P x)} (l : list A) :
  Forall P l → filter P l = l ∧ filter (λ x, ¬ P x) l = [].
Proof.
  induction 1 as [|x l Hx Hl [IH1 IH2]]; [done|].
  rewrite filter_cons_True by done. rewrite filter_cons_False by tauto.
  by rewrite IH1, IH2.
Qed.

(** X7.  When every instance already has the desired versions, a call
    that is not a dry run returns [success] true with every id in
    [skipped], mutates no instance, never sets the flag, and sets the
    versions of [current] to the desired ones. *)
Theorem deploy_no_updates_needed
    (deadline : nat → option nat) (w : World) (desired : SystemState)
    (config : DeploymentConfig) :
  deployment_in_progress (current w) = false →
  Forall (matches desired) (fleet w) →
  deploy deadline w desired config false
  = (Returned (mkResult true [] [] (instance_id <$> fleet w) None false
                        [no_updates_needed 0] ∅),
     mkWorld (fleet w)
             (mkSystem (sys_code_version desired)
                       (sys_configuration_version desired) false)
             (injector w)).
Proof.
  intros Hflag Hall. unfold deploy. rewrite Hflag.
  pose proof (find_instances_post desired (fleet w)) as Hfind.
  pose proof (find_instances_length desired (fleet w)) as Hlen.
  destruct (_find_instances_to_update (fleet w) desired) as [to_update already].
  destruct Hfind as (-> & _). simpl in *.
  destruct (filter_all (matches desired) (fleet w) Hall) as [Hsame Hnone].
  rewrite needing_update_matches, Hnone in Hlen. simpl in Hlen.
  rewrite Hlen, up_to_date_matches, Hsame. simpl.
  unfold set_system_versions. by rewrite Hflag.
Qed.

(** X8.  An invalid [batch_size] is only found when batches are planned:
    a call that is not a dry run and has an instance to update raises the
    error of [plan_batches], with no instance, no version of [current]
    and no injector counter changed and the flag cleared again. *)
Theorem deploy_invalid_batch_size
    (deadline : nat → option nat) (w : World) (desired : SystemState)
    (config : DeploymentConfig) :
  deployment_in_progress (current w) = false →
  Exists (λ i, ¬ matches desired i) (fleet w) →
  batch_size config ≤ 0 →
  deploy deadline w desired config false
  = (Raised (ValueError "batch_size must be > 0"), w).
Proof.
  intros Hflag Hex Hbs. unfold deploy. rewrite Hflag.
  pose proof (find_instances_length desired (fleet w)) as Hlen.
  destruct (_find_instances_to_update (fleet w) desired) as [to_update already].
  simpl in Hlen.
  assert (length to_update ≠ 0%nat) as Hne.
  { rewrite Hlen, needing_update_matches. intros Hnil%length_zero_iff_nil.
    apply Exists_exists in Hex as (i & Hi & Hni).
    assert (i ∈ filter (λ i, ¬ matches desired i) (fleet w)) as Hin
      by (by apply list_elem_of_filter).
    rewrite Hnil in Hin. by apply elem_of_nil in Hin. }
  apply Nat.eqb_neq in Hne. simpl. rewrite Hne.
  unfold deploy_try, plan_batches.
  rewrite (proj2 (Z.leb_le (batch_size config) 0)) by done. simpl.
  destruct w as [f [c k flag] inj]. simpl in *. by subst.
Qed.

(** ** Batch planner *)

Lemma plan_batches_length {A} (instances : list A) (batch_size : Z) batches :
  plan_batches instances batch_size = inr batches →
  length batches
  = ((length instances + Z.to_nat batch_size - 1) / Z.to_nat batch_size)%nat.
Proof.
  unfold plan_batches. destruct (Z.leb_spec batch_size 0) as [Hle|Hgt]; [done|].
  intros [= <-]. set (n := Z.to_nat batch_size).
  assert (0 < n)%nat as Hn by lia.
  rewrite length_fmap. unfold py_range. rewrite length_fmap, length_seq.
  destruct (Nat.ltb_spec 0 (length instances)) as [Hpos|Hz].
  - rewrite Nat.sub_0_r.
    replace (length instances + n - 1)%nat
      with ((length instances - 1) + 1 * n)%nat by lia.
    rewrite Nat.div_add by lia. lia.
  - replace (length instances) with 0%nat by lia. simpl.
    symmetry. apply Nat.div_small. lia.
Qed.

(** X9.  For a valid [batch_size], [plan_batches] returns
    [ceil(len(instances) / batch_size)] batches, and a batch size of at
    least the number of instances puts a non-empty input into a single
    batch. *)
Theorem plan_batches_count {A} (instances : list A) (batch_size : Z) :
  1 ≤ batch_size →
  ∃ batches,
    plan_batches instances batch_size = inr batches ∧
    length batches
    = ((length instances + Z.to_nat batch_size - 1) / Z.to_nat batch_size)%nat ∧
    (instances ≠ [] → Z.of_nat (length instances) ≤ batch_size →
     batches = [instances]).
Proof.
  intros Hbs.
  destruct (plan_batches instances batch_size) as [e|batches] eqn:Hplan.
  { unfold plan_batches in Hplan.
    by rewrite (proj2 (Z.leb_gt batch_size 0)) in Hplan by lia. }
  exists batches. split; [done|].
  pose proof (plan_batches_length instances batch_size batches Hplan) as Hlen.
  split; [done|]. intros Hne Hle.
  pose proof (plan_batches_concat instances batch_size batches Hplan) as Hconcat.
  assert (length batches = 1%nat) as Hone.
  { rewrite Hlen. destruct instances as [|x instances]; [done|].
    cbn [length] in *. symmetry.
    apply Nat.div_unique with (r := length instances); lia. }
  destruct batches as [|b [|b' batches]]; simpl in *; try done.
  by rewrite app_nil_r in Hconcat; subst.
Qed.

(** ** Failure injector *)

(** X10.  The injector fails exactly the first [fail_map[id]] calls made
    for an id: call number [k] of [n] successive calls for one instance
    fails iff the count of earlier calls plus [k] is at most
    [fail_map.get(id, 0)].  The calls raise the counter of that id by [n]
    and change neither the counter of another id nor [fail_map] or the
    delay. *)
Theorem should_fail_first_calls
    (n : nat) (inj : FailureInjector) (instance : InstanceState) :
  let id := instance_id instance in
  let inj' := (should_fail_times n inj instance).2 in
  (should_fail_times n inj instance).1
  = (λ k, bool_decide (default 0 (attempts inj !! id) + Z.of_nat k
                       ≤ default 0 (fail_map inj !! id))) <$> seq 1 n ∧
  default 0 (attempts inj' !! id) = default 0 (attempts inj !! id) + Z.of_nat n ∧
  (∀ id', id' ≠ id → attempts inj' !! id' = attempts inj !! id') ∧
  fail_map inj' = fail_map inj ∧
  delay inj' = delay inj.
Proof.
  intros id. subst id. simpl. revert inj.
  induction n as [|n IH]; intros inj.
  { simpl. repeat split; try done. lia. }
  cbn [should_fail_times].
  destruct (should_fail inj instance) as [b inj1] eqn:Hsf.
  unfold should_fail in Hsf. injection Hsf as <- <-.
  set (inj1 := mkInjector _ _ _).
  specialize (IH inj1).
  destruct (should_fail_times n inj1 instance) as [bs inj'].
  destruct IH as (Hbs & Hcount & Hother & Hmap & Hdelay). simpl in *.
  rewrite lookup_insert_eq in Hbs, Hcount. simpl in *.
  split; [|split; [|split; [|done]]].
  - cbn [seq fmap list_fmap]. f_equal.
    rewrite Hbs, <- (fmap_S_seq 1 n), <- list_fmap_compose.
    apply list_fmap_ext. intros _ k _. simpl.
    apply bool_decide_ext. lia.
  - lia.
  - intros id' Hne. rewrite Hother by done. by rewrite lookup_insert_ne.
Qed.

(** ** Retry / timeout wrapper: outcomes *)

Lemma int_fits_pow2 (e : Z) : 0 ≤ e ≤ 1023 → PyFloat.int_fits (2 ^ e) = true.
Proof.
  intros He.
  assert (forallb (λ k, PyFloat.int_fits (2 ^ Z.of_nat k)) (seq 0 1024) = true)
    as Hall by (vm_compute; reflexivity).
  rewrite forallb_forall in Hall.
  specialize (Hall (Z.to_nat e)). rewrite Z2Nat.id in Hall by lia.
  apply Hall. apply in_seq. lia.
Qed.

Lemma backoff_time_fits attempt config :
  1 ≤ attempt ≤ 1024 → ∃ t, backoff_time attempt config = inr t.
Proof.
  intros Ha. unfold backoff_time. rewrite int_fits_pow2 by lia. eauto.
Qed.

Lemma backoff_time_overflow config :
  backoff_time 1025 config = inl (OverflowError "int too large to convert to float").
Proof.
  unfold backoff_time.
  assert (PyFloat.int_fits (2 ^ (1025 - 1)) = false) as ->
    by (vm_compute; reflexivity).
  done.
Qed.

Lemma should_fail_true inj instance :
  1 ≤ remaining_failures inj (instance_id instance) →
  (should_fail inj instance).1 = true.
Proof.
  unfold remaining_failures, should_fail. simpl. intros Hf.
  apply bool_decide_eq_true. lia.
Qed.

Lemma should_fail_false inj instance :
  remaining_failures inj (instance_id instance) ≤ 0 →
  (should_fail inj instance).1 = false.
Proof.
  unfold remaining_failures, should_fail. simpl. intros Hf.
  apply bool_decide_eq_false. lia.
Qed.

Lemma should_fail_remaining inj instance :
  remaining_failures (should_fail inj instance).2 (instance_id instance)
  = remaining_failures inj (instance_id instance) - 1.
Proof.
  unfold remaining_failures, should_fail. simpl. rewrite lookup_insert_eq.
  simpl. lia.
Qed.

Lemma should_fail_times_S n inj instance :
  (should_fail_times (S n) inj instance).2
  = (should_fail_times n (should_fail inj instance).2 instance).2.
Proof.
  cbn [should_fail_times]. destruct (should_fail inj instance) as [b inj1].
  simpl. by destruct (should_fail_times n inj1 instance).
Qed.

Lemma should_fail_times_id n inj instance instance' :
  instance_id instance = instance_id instance' →
  should_fail_times n inj instance = should_fail_times n inj instance'.
Proof.
  intros Hid. revert inj. induction n as [|n IH]; intros inj; [done|].
  cbn [should_fail_times]. unfold should_fail. rewrite Hid. by rewrite IH.
Qed.

Lemma iter_degraded_swap m instance :
  Nat.iter m (set_health DEGRADED) (set_health DEGRADED instance)
  = Nat.iter (S m) (set_health DEGRADED) instance.
Proof. induction m as [|m IH]; [done|]. simpl in *. by rewrite IH. Qed.

(** With no deadline, [m] failing attempts that are not the last one and
    whose backoff can be computed lead to attempt [a + m] with the instance
    DEGRADED (if [m > 0]) and the injector [m] calls further. *)
Lemma do_update_loop_failures desired config max_attempts (m : nat) :
  ∀ a inj instance,
    1 ≤ a → a + Z.of_nat m ≤ max_attempts → a + Z.of_nat m - 1 ≤ 1024 →
    ((0 < m)%nat → Z.of_nat m ≤ remaining_failures inj (instance_id instance)) →
    _do_update_loop (py_range_Z a (max_attempts + 1)) max_attempts desired
                    config None inj instance
    = _do_update_loop (py_range_Z (a + Z.of_nat m) (max_attempts + 1))
                      max_attempts desired config None
                      (should_fail_times m inj instance).2
                      (Nat.iter m (set_health DEGRADED) instance).
Proof.
  induction m as [|m IH]; intros a inj instance Ha Hmax Hfit Hrem.
  { simpl. by rewrite Z.add_0_r. }
  rewrite (py_range_Z_cons a) by lia. cbn [_do_update_loop].
  assert ((if PyFloat.gt (delay_seconds inj) PyFloat.zero
           then suspend None else Some None) = Some None) as ->
    by (by destruct (PyFloat.gt _ _)).
  pose proof (should_fail_true inj instance ltac:(lia)) as Hfail.
  pose proof (should_fail_remaining inj instance) as Hrem'.
  rewrite should_fail_times_S.
  destruct (should_fail inj instance) as [fail inj1]. simpl in Hfail, Hrem' |- *.
  subst fail.
  destruct (Z.geb_spec a max_attempts) as [?|_]; [lia|].
  destruct (backoff_time_fits a config ltac:(lia)) as [t ->]. simpl.
  rewrite (IH (a + 1) inj1 (set_health DEGRADED instance)) by (simpl; lia).
  replace (a + 1 + Z.of_nat m) with (a + Z.of_nat (S m)) by lia.
  rewrite (should_fail_times_id m inj1 (set_health DEGRADED instance) instance)
    by done.
  by rewrite iter_degraded_swap.
Qed.

Lemma iter_degraded_id m instance :
  instance_id (Nat.iter m (set_health DEGRADED) instance) = instance_id instance.
Proof. induction m as [|m IH]; [done|]. by simpl. Qed.

Lemma should_fail_times_remaining m inj instance :
  remaining_failures (should_fail_times m inj instance).2 (instance_id instance)
  = remaining_failures inj (instance_id instance) - Z.of_nat m.
Proof.
  revert inj. induction m as [|m IH]; intros inj; [simpl; lia|].
  rewrite should_fail_times_S, IH, should_fail_remaining. lia.
Qed.

Lemma should_fail_times_snoc m inj instance :
  (should_fail (should_fail_times m inj instance).2 instance).2
  = (should_fail_times (S m) inj instance).2.
Proof.
  revert inj. induction m as [|m IH]; intros inj.
  - by rewrite should_fail_times_S.
  - rewrite (should_fail_times_S (S m)), (should_fail_times_S m). apply IH.
Qed.

Lemma iter_degraded_updated desired m instance :
  set_health HEALTHY
    (set_versions (sys_code_version desired) (sys_configuration_version desired)
                  (Nat.iter m (set_health DEGRADED) instance))
  = updated_instance desired instance.
Proof.
  unfold updated_instance, set_health, set_versions. simpl.
  by rewrite iter_degraded_id.
Qed.

Lemma iter_degraded_set_health h m instance :
  set_health h (Nat.iter m (set_health DEGRADED) instance) = set_health h instance.
Proof. induction m as [|m IH]; [done|]. simpl. by rewrite <- IH. Qed.

Lemma do_update_loop_cons_None attempt range max_attempts desired config inj instance :
  _do_update_loop (attempt :: range) max_attempts desired config None inj instance
  = if (should_fail inj instance).1 then
      if attempt >=? max_attempts then
        (Return false (Some "Simulated deployment failure"%string),
         set_health FAILED instance, (should_fail inj instance).2)
      else
        match backoff_time attempt config with
        | inl e => (Raise e, set_health DEGRADED instance, (should_fail inj instance).2)
        | inr _ =>
            _do_update_loop range max_attempts desired config None
                            (should_fail inj instance).2
                            (set_health DEGRADED instance)
        end
    else
      (Return true None,
       set_health HEALTHY
         (set_versions (sys_code_version desired)
                       (sys_configuration_version desired) instance),
       (should_fail inj instance).2).
Proof.
  cbn [_do_update_loop].
  assert ((if PyFloat.gt (delay_seconds inj) PyFloat.zero
           then suspend None else Some None) = Some None) as ->
    by (by destruct (PyFloat.gt _ _)).
  by destruct (should_fail inj instance) as [[|] inj1].
Qed.

Lemma should_fail_iter_degraded m inj instance :
  should_fail inj (Nat.iter m (set_health DEGRADED) instance)
  = should_fail inj instance.
Proof. unfold should_fail. by rewrite iter_degraded_id. Qed.

(** What [_do_update] returns when no deadline guards it, by the number
    [f] of injected failures the instance still has to go through. *)
Lemma do_update_outcome inj instance desired config :
  let f := remaining_failures inj (instance_id instance) in
  let max_attempts := max_attempts_of config in
  (f < max_attempts → f ≤ 1024 →
   _do_update None inj instance desired config
   = (Return true None, updated_instance desired instance,
      (should_fail_times (S (Z.to_nat f)) inj instance).2)) ∧
  (max_attempts ≤ f → max_attempts ≤ 1025 →
   _do_update None inj instance desired config
   = (Return false (Some "Simulated deployment failure"%string),
      set_health FAILED instance,
      (should_fail_times (Z.to_nat max_attempts) inj instance).2)) ∧
  (1025 ≤ f → 1025 < max_attempts →
   _do_update None inj instance desired config
   = (Raise (OverflowError "int too large to convert to float"),
      set_health DEGRADED instance,
      (should_fail_times 1025 inj instance).2)).
Proof.
  intros f max_attempts. unfold _do_update. fold max_attempts.
  assert (1 ≤ max_attempts) as Hmax by (unfold max_attempts, max_attempts_of; lia).
  split; [|split].
  - intros Hlt Hfit. set (m := Z.to_nat f).
    rewrite (do_update_loop_failures desired config max_attempts m 1 inj instance)
      by (subst f m; lia).
    rewrite py_range_Z_cons by lia.
    rewrite do_update_loop_cons_None, should_fail_iter_degraded.
    rewrite should_fail_false
      by (rewrite should_fail_times_remaining; subst f m; lia).
    by rewrite iter_degraded_updated, should_fail_times_snoc.
  - intros Hge Hfit. set (m := Z.to_nat (max_attempts - 1)).
    rewrite (do_update_loop_failures desired config max_attempts m 1 inj instance)
      by (subst f m; lia).
    replace (1 + Z.of_nat m) with max_attempts by (subst m; lia).
    rewrite py_range_Z_cons by lia.
    rewrite do_update_loop_cons_None, should_fail_iter_degraded.
    rewrite should_fail_true
      by (rewrite should_fail_times_remaining; subst f m; lia).
    rewrite (proj2 (Z.geb_le max_attempts max_attempts)) by lia.
    rewrite iter_degraded_set_health, should_fail_times_snoc.
    by replace (S m) with (Z.to_nat max_attempts) by (subst m; lia).
  - intros Hge Hbig.
    rewrite (do_update_loop_failures desired config max_attempts 1024 1 inj instance)
      by (subst f; lia).
    replace (1 + Z.of_nat 1024) with 1025 by lia.
    rewrite py_range_Z_cons by lia.
    rewrite do_update_loop_cons_None, should_fail_iter_degraded.
    rewrite should_fail_true
      by (rewrite should_fail_times_remaining; subst f; lia).
    destruct (Z.geb_spec 1025 max_attempts) as [?|_]; [lia|].
    rewrite backoff_time_overflow.
    by rewrite iter_degraded_set_health, should_fail_times_snoc.
Qed.

(** X11.  With no timeout configured and at most 1024 retries,
    [_update_instance] succeeds exactly when the injected failures the
    instance still has to go through are fewer than the attempts
    [max(1, retry_max_attempts + 1)]: it then returns [(True, None)]
    after one call of the injector more than those failures and leaves
    the instance at the desired versions and HEALTHY; otherwise it
    returns [(False, "Simulated deployment failure")] after exactly
    [max(1, retry_max_attempts + 1)] calls and leaves the instance with
    its versions and health FAILED. *)
Theorem update_instance_retry_outcome
    (deadline : option nat) (inj : FailureInjector) (instance : InstanceState)
    (desired : SystemState) (config : DeploymentConfig) :
  timeout_active config = false →
  retry_max_attempts config ≤ 1024 →
  let f := remaining_failures inj (instance_id instance) in
  let max_attempts := Z.max 1 (retry_max_attempts config + 1) in
  _update_instance deadline inj instance desired config
  = if decide (f < max_attempts) then
      (inr (true, None),
       mkInstance (instance_id instance) (sys_code_version desired)
                  (sys_configuration_version desired) HEALTHY,
       (should_fail_times (S (Z.to_nat f)) inj instance).2)
    else
      (inr (false, Some "Simulated deployment failure"%string),
       mkInstance (instance_id instance) (code_version instance)
                  (configuration_version instance) FAILED,
       (should_fail_times (Z.to_nat max_attempts) inj instance).2).
Proof.
  intros Htimeout Hretry f max_attempts.
  unfold _update_instance. rewrite Htimeout.
  destruct (do_update_outcome inj instance desired config) as (Hok & Hfail & _).
  fold f in Hok, Hfail. unfold max_attempts_of in Hok, Hfail.
  fold max_attempts in Hok, Hfail.
  destruct (decide (f < max_attempts)) as [Hlt|Hge].
  - by rewrite Hok by lia.
  - by rewrite Hfail by lia.
Qed.

(** X12.  The backoff [(2 ** (attempt - 1)) * retry_base_delay_s] cannot
    be computed after attempt 1025, since [2 ** 1024] is not a float:
    with no timeout configured, more than 1024 retries and at least 1025
    injected failures to go through, [_update_instance] raises
    [OverflowError] after 1025 calls of the injector and leaves the
    instance DEGRADED. *)
Theorem update_instance_backoff_overflow
    (deadline : option nat) (inj : FailureInjector) (instance : InstanceState)
    (desired : SystemState) (config : DeploymentConfig) :
  timeout_active config = false →
  1024 < retry_max_attempts config →
  1025 ≤ remaining_failures inj (instance_id instance) →
  _update_instance deadline inj instance desired config
  = (inl (OverflowError "int too large to convert to float"),
     mkInstance (instance_id instance) (code_version instance)
                (configuration_version instance) DEGRADED,
     (should_fail_times 1025 inj instance).2).
Proof.
  intros Htimeout Hretry Hf.
  unfold _update_instance. rewrite Htimeout.
  destruct (do_update_outcome inj instance desired config) as (_ & _ & Hover).
  by rewrite Hover by (unfold max_attempts_of; lia).
Qed.

(** X13.  The error "timeout" is returned only by the timeout branch: a
    timeout is configured, the result is a failure, and the instance has
    its versions (no update is applied) and health FAILED.  When a
    timeout is configured, the injector's delay is positive and the
    deadline fires during that first delay, the injector is never asked. *)
Theorem update_instance_timeout
    (deadline : option nat) (inj : FailureInjector) (instance : InstanceState)
    (desired : SystemState) (config : DeploymentConfig) :
  (∀ ok instance' inj',
     _update_instance deadline inj instance desired config
     = (inr (ok, Some "timeout"%string), instance', inj') →
     ok = false ∧ timeout_active config = true ∧
     same_versions instance instance' ∧ health instance' = FAILED) ∧
  (timeout_active config = true →
   PyFloat.gt (delay_seconds inj) PyFloat.zero = true →
   deadline = Some 0%nat →
   _update_instance deadline inj instance desired config
   = (inr (false, Some "timeout"%string), set_health FAILED instance, inj)).
Proof.
  split.
  - intros ok instance' inj'. unfold _update_instance.
    pose proof (do_update_loop_post desired config (max_attempts_of config)
                  (Z.to_nat (max_attempts_of config - 1)) 1) as Hpost.
    destruct (timeout_active config).
    + specialize (Hpost deadline inj instance
                        ltac:(unfold max_attempts_of; lia) eq_refl).
      unfold _do_update.
      destruct (_do_update_loop _ _ _ _ _ _ _) as [[ex i1] inj1].
      simpl in Hpost.
      destruct ex as [[|] error|e|]; intros Heq; simplify_eq;
        try (by destruct Hpost as [[=] _]).
      by destruct Hpost as (Hsame & _).
    + specialize (Hpost None inj instance
                        ltac:(unfold max_attempts_of; lia) eq_refl).
      unfold _do_update.
      destruct (_do_update_loop _ _ _ _ _ _ _) as [[ex i1] inj1].
      simpl in Hpost.
      destruct ex as [[|] error|e|]; intros Heq; simplify_eq;
        by destruct Hpost as [[=] _].
  - intros Htimeout Hdelay ->. unfold _update_instance, _do_update.
    rewrite Htimeout.
    rewrite py_range_Z_cons by (unfold max_attempts_of; lia).
    cbn [_do_update_loop]. by rewrite Hdelay.
Qed.

(** ** The batch loop, in full *)

Lemma count_events_app kind h1 h2 :
  count_events kind (h1 ++ h2) = (count_events kind h1 + count_events kind h2)%nat.
Proof. unfold count_events. by rewrite filter_app, length_app. Qed.

Lemma count_events_cons kind e h :
  count_events kind (e :: h)
  = ((if kind e then 1 else 0) + count_events kind h)%nat.
Proof.
  unfold count_events. destruct (kind e) eqn:Hk.
  - by rewrite filter_cons_True.
  - rewrite filter_cons_False; [done|]. by rewrite Hk.
Qed.

Lemma process_batch_results_members fleet batch_idx (batch : list nat) :
  ∀ outcomes result updated failed,
    length outcomes = length batch →
    ∃ U F result',
      _process_batch_results fleet batch outcomes batch_idx result updated failed
      = (result', updated ++ U, failed ++ F) ∧
      summary result' = summary result ∧
      history result' = history result ∧
      (∀ i k (o : bool * option string),
         batch !! i = Some k → outcomes !! i = Some o →
         if o.1 then instance_id (fleet !!! k) ∈ U
         else instance_id (fleet !!! k) ∈ F) ∧
      ((∀ o, o ∈ outcomes → o.1 = true) → U = ids_of fleet batch ∧ F = []).
Proof.
  unfold _process_batch_results.
  induction batch as [|k batch IH];
    intros [|[ok error] outcomes] result updated failed Hlen; try done.
  { exists [], [], result. rewrite !app_nil_r. simpl.
    repeat split; try done. }
  simpl. injection Hlen as Hlen. destruct ok.
  - destruct (IH outcomes
                (node_history_append (instance_id (fleet !!! k))
                                     (node_updated batch_idx) result)
                (updated ++ [instance_id (fleet !!! k)]) failed Hlen)
      as (U & F & result' & -> & Hsum & Hhist & Hmem & Hall).
    exists (instance_id (fleet !!! k) :: U), F, result'.
    rewrite <- app_assoc. simpl. split; [done|]. split; [done|].
    split; [done|]. split.
    + intros [|i] k' o Hk Ho; simpl in *.
      * injection Hk as <-. injection Ho as <-. simpl. by left.
      * specialize (Hmem i k' o Hk Ho). destruct (o.1); [by right|done].
    + intros Htrue. destruct Hall as [-> ->]; [|done].
      intros o Ho. apply Htrue. by right.
  - destruct (IH outcomes
                (node_history_append (instance_id (fleet !!! k))
                                     (node_failed batch_idx error) result)
                updated (failed ++ [instance_id (fleet !!! k)]) Hlen)
      as (U & F & result' & -> & Hsum & Hhist & Hmem & Hall).
    exists U, (instance_id (fleet !!! k) :: F), result'.
    rewrite <- app_assoc. simpl. split; [done|]. split; [done|].
    split; [done|]. split.
    + intros [|i] k' o Hk Ho; simpl in *.
      * injection Hk as <-. injection Ho as <-. simpl. by left.
      * specialize (Hmem i k' o Hk Ho). destruct (o.1); [done|by right].
    + intros Htrue. specialize (Htrue (false, error) ltac:(by left)). done.
Qed.

Lemma position_done_mono desired old new U F U1 U2 F1 F2 :
  position_done desired old new U F →
  position_done desired old new (U1 ++ U ++ U2) (F1 ++ F ++ F2).
Proof.
  intros [[Hin ?]|[Hin ?]]; [left|right]; (split; [|done]);
    rewrite !elem_of_app; tauto.
Qed.

Lemma run_batches_loop_full batches deadline desired config snapshot
    (remaining : list (list nat)) :
  ∀ batch_idx st,
    NoDup (concat remaining) →
    Forall (λ k, k < length (ls_fleet st))%nat (concat remaining) →
    let total := sum_list (length <$> batches) in
    let '(r, st') := _run_batches_loop remaining batch_idx batches deadline
                                       desired config snapshot st in
    ∃ U F H,
      ls_updated st' = ls_updated st ++ U ∧
      ls_failed st' = ls_failed st ++ F ∧
      history (ls_result st') = history (ls_result st) ++ H ∧
      match r with
      | inl e => True
      | inr false =>
          (remaining = [] → st' = st) ∧
          summary (ls_result st') = summary (ls_result st) ∧
          (∀ k, k ∉ concat remaining → ls_fleet st' !! k = ls_fleet st !! k) ∧
          (∀ k, k ∈ concat remaining →
                position_done desired (ls_fleet st !!! k) (ls_fleet st' !!! k) U F) ∧
          (remaining = [] ∨
           _check_failure_limits (Z.of_nat total)
                                 (Z.of_nat (length (ls_failed st'))) config = false) ∧
          count_events is_batch_start H = length remaining ∧
          count_events is_batch_completed H = length remaining ∧
          count_events is_abort H = 0%nat
      | inr true =>
          rolled_back (ls_result st') = true ∧
          _check_failure_limits (Z.of_nat total)
                                (Z.of_nat (length (ls_failed st'))) config = true ∧
          aborted_reason (ls_result st')
          = Some "failure thresholds exceeded"%string ∧
          failed (ls_result st') = ls_failed st' ∧
          count_events is_batch_start H = S (count_events is_batch_completed H) ∧
          (count_events is_batch_start H ≤ length remaining)%nat ∧
          count_events is_abort H = 1%nat ∧
          last H = Some (abort "failure thresholds exceeded"
                               (length (ls_failed st')) total)
      end.
Proof.
  induction remaining as [|batch remaining IH]; intros batch_idx st Hnd Hbound total.
  { simpl. exists [], [], []. rewrite !app_nil_r. repeat split; try done.
    - intros k Hk. by apply elem_of_nil in Hk.
    - by left. }
  cbn [_run_batches_loop concat] in *. fold total.
  apply NoDup_app in Hnd as (Hndb & Hdisj & Hndr).
  apply Forall_app in Hbound as [Hboundb Hboundr].
  pose proof (gather_post deadline desired config batch (ls_fleet st) (ls_injector st))
    as Hgather.
  destruct (gather _ _ _ _ _ _) as [[r fleet1] inj1].
  destruct Hgather as (Hids & Hframe & Hr).
  destruct r as [e|outcomes].
  { exists [], [], [batch_start batch_idx (ids_of (ls_fleet st) batch)].
    simpl. by rewrite !app_nil_r. }
  destruct Hr as [Hlen Hsettled]. specialize (Hsettled Hndb Hboundb).
  destruct (process_batch_results_members fleet1 batch_idx batch outcomes
              (history_append
                 (batch_start batch_idx (ids_of (ls_fleet st) batch))
                 (ls_result st))
              (ls_updated st) (ls_failed st) Hlen)
    as (U1 & F1 & result1 & -> & Hsum & Hhist & Hmem & _).
  destruct (_check_failure_limits _ _ _) eqn:Hcheck.
  - (* abort *)
    exists U1, F1, [batch_start batch_idx (ids_of (ls_fleet st) batch);
                    abort "failure thresholds exceeded"
                          (length (ls_failed st ++ F1)) total].
    simpl. rewrite Hhist. simpl. rewrite <- app_assoc. simpl.
    repeat split; try done. rewrite !count_events_cons. simpl.
    unfold count_events. simpl. lia.
  - (* next batch *)
    match goal with
    | |- context [_run_batches_loop _ _ _ _ _ _ _ ?st1] =>
        specialize (IH (S batch_idx) st1 Hndr)
    end.
    cbn [ls_fleet] in IH. rewrite (ids_length _ _ Hids) in IH.
    specialize (IH Hboundr). fold total in IH.
    destruct (_run_batches_loop _ _ _ _ _ _ _ _) as [r st'].
    destruct IH as (U2 & F2 & H2 & HU & HF & HH & IH). simpl in HU, HF, HH.
    exists (U1 ++ U2), (F1 ++ F2),
           ([batch_start batch_idx (ids_of (ls_fleet st) batch);
             batch_completed batch_idx (length (ls_updated st ++ U1))
                             (length (ls_failed st ++ F1))] ++ H2).
    rewrite HU, HF, HH, Hhist. simpl. rewrite <- !app_assoc. simpl.
    split; [done|]. split; [done|]. split; [done|].
    destruct r as [e|[|]]; [done| |].
    + (* a later batch aborted *)
      destruct IH as (Hrb & Hchk & Hreason & Hfailed & Hstarts & Hle & Habort & Hlast).
      rewrite HF, <- app_assoc in Hchk, Hlast.
      split; [done|]. split; [done|]. split; [done|].
      split; [by rewrite Hfailed, HF, <- app_assoc|].
      rewrite !count_events_cons. simpl.
      split; [lia|]. split; [lia|]. split; [done|].
      by rewrite last_cons, Hlast.
    + (* completed *)
      destruct IH as (Hnil & Hsum' & Hframe' & Hpos & Hchk & Hs & Hc & Ha).
      split; [done|].
      split; [by rewrite Hsum'|].
      split.
      { intros k [Hkb Hkr]%not_elem_of_app. rewrite Hframe' by done.
        by apply Hframe. }
      split.
      { intros k [Hkb|Hkr]%elem_of_app.
        - apply list_elem_of_lookup in Hkb as [i Hi].
          destruct (lookup_lt_is_Some_2 outcomes i) as [o Ho].
          { rewrite Hlen. by eapply lookup_lt_Some. }
          specialize (Hsettled i k o Hi Ho). specialize (Hmem i k o Hi Ho).
          assert (ls_fleet st' !!! k = fleet1 !!! k) as ->.
          { rewrite !list_lookup_total_alt. rewrite Hframe'; [done|].
            apply Hdisj. by eapply list_elem_of_lookup_2. }
          rewrite (settled_id _ _ _ _ Hsettled) in Hmem.
          unfold settled in Hsettled. destruct (o.1).
          + left. split; [|done]. apply elem_of_app. by left.
          + right. split; [|done]. apply elem_of_app. by left.
        - specialize (Hpos k Hkr). cbn [ls_fleet] in Hpos.
          assert (fleet1 !!! k = ls_fleet st !!! k) as Heq.
          { rewrite !list_lookup_total_alt. rewrite Hframe; [done|].
            intros Hkb. by apply (Hdisj k Hkb). }
          rewrite Heq in Hpos.
          apply (position_done_mono desired _ _ U2 F2 U1 [] F1 []) in Hpos.
          by rewrite !app_nil_r in Hpos. }
      split.
      { right. destruct Hchk as [->|Hchk].
        - rewrite (Hnil eq_refl) in HF. simpl in HF.
          assert (F2 = []) as ->.
          { apply (app_inv_head (ls_failed st ++ F1)). by rewrite app_nil_r. }
          by rewrite app_nil_r.
        - by rewrite HF, <- app_assoc in Hchk. }
      rewrite !count_events_cons. simpl. lia.
Qed.

Lemma sum_list_lengths {A} (ls : list (list A)) :
  sum_list (length <$> ls) = length (concat ls).
Proof.
  induction ls as [|l ls IH]; [done|]. simpl. rewrite length_app.
  f_equal. exact IH.
Qed.

(** What a call of [deploy] that went through the batch loop and returned
    has done. *)
Lemma deploy_full deadline w desired config r w' :
  deploy deadline w desired config false = (Returned r, w') →
  let to_update := (_find_instances_to_update (fleet w) desired).1 in
  let total := length to_update in
  to_update ≠ [] →
  ∃ batches,
    plan_batches to_update (batch_size config) = inr batches ∧
    if rolled_back r then
      current w' = current w ∧
      _check_failure_limits (Z.of_nat total) (Z.of_nat (length (failed r)))
                            config = true ∧
      aborted_reason r = Some "failure thresholds exceeded"%string ∧
      count_events is_batch_start (history r)
      = S (count_events is_batch_completed (history r)) ∧
      (count_events is_batch_start (history r) ≤ length batches)%nat ∧
      count_events is_abort (history r) = 1%nat ∧
      last (history r) = Some (abort "failure thresholds exceeded"
                                     (length (failed r)) total)
    else
      current w' = mkSystem (sys_code_version desired)
                            (sys_configuration_version desired) false ∧
      _check_failure_limits (Z.of_nat total) (Z.of_nat (length (failed r)))
                            config = false ∧
      aborted_reason r = None ∧
      count_events is_batch_start (history r) = length batches ∧
      count_events is_batch_completed (history r) = length batches ∧
      count_events is_abort (history r) = 0%nat ∧
      (∀ k, k ∉ to_update → fleet w' !! k = fleet w !! k) ∧
      (∀ k, k ∈ to_update →
            position_done desired (fleet w !!! k) (fleet w' !!! k)
                          (updated r) (failed r)).
Proof.
  unfold deploy.
  destruct (deployment_in_progress (current w)) eqn:Hflag; [done|].
  pose proof (find_instances_post desired (fleet w)) as Hfind.
  destruct (_find_instances_to_update (fleet w) desired) as [to_update already].
  destruct Hfind as (_ & _ & Hbound & Hnd & _ & _). cbn [fst].
  intros Hdeploy Hne.
  assert ((length to_update =? 0)%nat = false) as Hlen.
  { apply Nat.eqb_neq. by intros ?%length_zero_iff_nil. }
  simpl in Hdeploy. rewrite Hlen in Hdeploy.
  unfold deploy_try in Hdeploy. cbn [fleet current injector] in Hdeploy.
  destruct (plan_batches to_update (batch_size config)) as [e|batches] eqn:Hplan;
    [done|].
  exists batches. split; [done|].
  pose proof (plan_batches_concat _ _ _ Hplan) as Hconcat.
  pose proof (run_batches_loop_full batches deadline desired config
                (take_snapshot (fleet w)) batches 1%nat
                (mkLoop (set_skipped already new_result) [] [] (fleet w) (injector w)))
    as Hloop.
  rewrite Hconcat in Hloop. specialize (Hloop Hnd Hbound).
  rewrite sum_list_lengths, Hconcat in Hloop. cbv zeta in Hloop.
  unfold _run_batches in Hdeploy.
  destruct (_run_batches_loop _ _ _ _ _ _ _ _) as [res st'].
  destruct Hloop as (U & F & H & HU & HF & HH & Hres).
  simpl in HU, HF, HH.
  destruct res as [e|[|]]; [done| |].
  - (* aborted *)
    injection Hdeploy as <- <-. cbn [current].
    destruct Hres as (-> & Hchk & Hreason & Hfailed & Hs & Hle & Ha & Hlast).
    rewrite Hfailed, HH.
    split; [by destruct (current w) as [c k flag]; simpl in *; subst|].
    done.
  - (* completed *)
    unfold _finish_deployment in Hdeploy. injection Hdeploy as <- <-.
    destruct Hres as (_ & Hsum & Hframe & Hpos & Hchk & Hs & Hc & Ha).
    injection Hsum as _ _ _ _ Hreason Hrb. simpl in *. rewrite Hrb.
    rewrite HH, HU, HF in *. simpl.
    split; [done|]. split; [|done].
    destruct Hchk as [->|Hchk]; [|done]. simpl in Hconcat. by subst.
Qed.

(** ** When [deploy] raises *)






(** ** Abort, completion and the state they leave *)

Lemma to_update_iff desired (instances : list InstanceState) (k : nat) :
  (k < length instances)%nat →
  k ∈ (_find_instances_to_update instances desired).1
  ↔ ¬ matches desired (instances !!! k).
Proof.
  intros Hk. unfold _find_instances_to_update. rewrite find_loop_eq. simpl.
  destruct (positions_to_update_post desired instances 0)
    as (_ & _ & Hmap & Hrest).
  rewrite <- needs_update_matches. split.
  - intros Hin.
    assert (instances !!! k ∈ needing_update desired instances) as Hneed.
    { rewrite <- Hmap. apply list_elem_of_fmap.
      exists k. by rewrite Nat.sub_0_r. }
    by apply list_elem_of_filter in Hneed as [? _].
  - intros Hneeds.
    destruct (decide (k ∈ positions_to_update desired 0 instances)) as [|Hnotin];
      [done|].
    specialize (Hrest k ltac:(lia) Hnotin). by rewrite Nat.sub_0_r in Hrest.
Qed.

Lemma short_circuit_not_rolled_back deadline w desired config dry_run r w' :
  deploy deadline w desired config dry_run = (Returned r, w') →
  rolled_back r = true →
  dry_run = false ∧ (_find_instances_to_update (fleet w) desired).1 ≠ [].
Proof.
  intros Hdeploy Hrb.
  pose proof (deploy_post deadline w desired config dry_run) as Hpost.
  rewrite Hdeploy in Hpost. cbv zeta in Hpost.
  destruct Hpost as (_ & _ & Hpost).
  destruct dry_run; simpl in Hpost.
  { destruct Hpost as (_ & _ & _ & ? & _). congruence. }
  split; [done|]. intros Hnil. rewrite Hnil in Hpost. simpl in Hpost.
  destruct Hpost as (_ & _ & _ & ? & _). congruence.
Qed.

(** X15.  An abort leaves [current] exactly as it was (versions
    unchanged, flag clear) and reports why: [aborted_reason] is "failure
    thresholds exceeded", [failed] is not empty, the threshold predicate
    holds for the number of instances needing an update and the number
    of ids in [failed], and the last history event is the [abort] event
    with these two counts. *)
Theorem deploy_abort_report
    (deadline : nat → option nat) (w : World) (desired : SystemState)
    (config : DeploymentConfig) (dry_run : bool)
    (r : DeploymentResult) (w' : World) :
  deploy deadline w desired config dry_run = (Returned r, w') →
  rolled_back r = true →
  let total := length (filter (λ i, ¬ matches desired i) (fleet w)) in
  current w' = current w ∧
  aborted_reason r = Some "failure thresholds exceeded"%string ∧
  failed r ≠ [] ∧
  _check_failure_limits (Z.of_nat total) (Z.of_nat (length (failed r))) config
  = true ∧
  last (history r)
  = Some (abort "failure thresholds exceeded" (length (failed r)) total).
Proof.
  intros Hdeploy Hrb total.
  destruct (short_circuit_not_rolled_back _ _ _ _ _ _ _ Hdeploy Hrb) as [-> Hne].
  destruct (deploy_full _ _ _ _ _ _ Hdeploy Hne) as (batches & _ & Hfull).
  rewrite Hrb in Hfull. rewrite find_instances_length in Hfull.
  rewrite needing_update_matches in Hfull. fold total in Hfull.
  destruct Hfull as (Hcur & Hchk & Hreason & _ & _ & _ & Hlast).
  repeat split; try done.
  intros Hnil. rewrite Hnil in Hchk. unfold _check_failure_limits in Hchk.
  simpl in Hchk. by rewrite orb_true_r in Hchk.
Qed.

(** X16.  A call that is not a dry run and returns without rollback sets
    the versions of [current] to the desired ones and leaves the flag
    clear, also when some instances failed ([success] false); no
    [aborted_reason] is set. *)
Theorem deploy_completion_sets_current
    (deadline : nat → option nat) (w : World) (desired : SystemState)
    (config : DeploymentConfig) (r : DeploymentResult) (w' : World) :
  deploy deadline w desired config false = (Returned r, w') →
  rolled_back r = false →
  current w' = mkSystem (sys_code_version desired)
                        (sys_configuration_version desired) false ∧
  aborted_reason r = None.
Proof.
  intros Hdeploy Hrb.
  destruct (decide ((_find_instances_to_update (fleet w) desired).1 = []))
    as [Hnil|Hne].
  - unfold deploy in Hdeploy.
    destruct (deployment_in_progress (current w)) eqn:Hflag; [done|].
    destruct (_find_instances_to_update (fleet w) desired) as [to_update already].
    simpl in Hnil. subst to_update. simpl in Hdeploy.
    injection Hdeploy as <- <-. simpl. unfold set_system_versions.
    by rewrite Hflag.
  - destruct (deploy_full _ _ _ _ _ _ Hdeploy Hne) as (batches & _ & Hfull).
    rewrite Hrb in Hfull. by destruct Hfull as (? & _ & ? & _).
Qed.

(** X17.  A result that is not rolled back respects the thresholds: the
    threshold predicate is false for the number of instances needing an
    update and the number of ids in [failed]; in particular, with
    [max_failures] set, [failed] is empty or has at most [max_failures]
    ids. *)
Theorem deploy_completion_within_thresholds
    (deadline : nat → option nat) (w : World) (desired : SystemState)
    (config : DeploymentConfig) (dry_run : bool)
    (r : DeploymentResult) (w' : World) :
  deploy deadline w desired config dry_run = (Returned r, w') →
  rolled_back r = false →
  let total := length (filter (λ i, ¬ matches desired i) (fleet w)) in
  _check_failure_limits (Z.of_nat total) (Z.of_nat (length (failed r))) config
  = false ∧
  (∀ m, max_failures config = Some m →
        failed r = [] ∨ Z.of_nat (length (failed r)) ≤ m).
Proof.
  intros Hdeploy Hrb total.
  assert (_check_failure_limits (Z.of_nat total)
            (Z.of_nat (length (failed r))) config = false) as Hchk.
  { pose proof (deploy_post deadline w desired config dry_run) as Hpost.
    rewrite Hdeploy in Hpost. cbv zeta in Hpost.
    destruct Hpost as (_ & _ & Hpost).
    destruct (dry_run || _) eqn:Hshort.
    { destruct Hpost as (_ & _ & -> & _).
      unfold _check_failure_limits. simpl. by rewrite orb_true_r. }
    apply orb_false_iff in Hshort as [-> Hlen].
    assert ((_find_instances_to_update (fleet w) desired).1 ≠ []) as Hne.
    { intros Hnil. by rewrite Hnil in Hlen. }
    destruct (deploy_full _ _ _ _ _ _ Hdeploy Hne) as (batches & _ & Hfull).
    rewrite Hrb in Hfull. rewrite find_instances_length in Hfull.
    rewrite needing_update_matches in Hfull. by destruct Hfull as (_ & ? & _). }
  split; [done|]. intros m Hm.
  unfold _check_failure_limits in Hchk. rewrite Hm in Hchk.
  destruct (Z.of_nat total =? 0) eqn:Htotal.
  { left. apply Z.eqb_eq in Htotal.
    pose proof (deploy_post deadline w desired config dry_run) as Hpost.
    pose proof (find_instances_post desired (fleet w)) as Hfind.
    pose proof (find_instances_length desired (fleet w)) as Hlen.
    rewrite Hdeploy in Hpost. cbv zeta in Hpost.
    destruct (_find_instances_to_update (fleet w) desired) as [to_update already].
    simpl in *. rewrite needing_update_matches in Hlen. fold total in Hlen.
    assert (to_update = []) as -> by (apply length_zero_iff_nil; lia).
    destruct Hpost as (_ & _ & Hpost). rewrite orb_true_r in Hpost.
    by destruct Hpost as (_ & _ & ? & _). }
  destruct (Z.of_nat (length (failed r)) =? 0) eqn:Hfailed.
  { left. apply Z.eqb_eq in Hfailed. apply length_zero_iff_nil. lia. }
  simpl in Hchk. right.
  destruct (Z.ltb_spec m (Z.of_nat (length (failed r)))); [done|lia].
Qed.

(** X18.  With neither [max_failures] nor [failure_percentage] set,
    [deploy] never aborts: every result has [rolled_back] false, however
    many instances failed. *)
Theorem deploy_without_thresholds
    (deadline : nat → option nat) (w : World) (desired : SystemState)
    (config : DeploymentConfig) (dry_run : bool)
    (r : DeploymentResult) (w' : World) :
  max_failures config = None →
  failure_percentage config = None →
  deploy deadline w desired config dry_run = (Returned r, w') →
  rolled_back r = false.
Proof.
  intros Hmax Hpct Hdeploy.
  destruct (rolled_back r) eqn:Hrb; [|done].
  destruct (short_circuit_not_rolled_back _ _ _ _ _ _ _ Hdeploy Hrb) as [-> Hne].
  destruct (deploy_full _ _ _ _ _ _ Hdeploy Hne) as (batches & _ & Hfull).
  rewrite Hrb in Hfull. destruct Hfull as (_ & Hchk & _).
  unfold _check_failure_limits in Hchk. rewrite Hmax, Hpct in Hchk.
  by destruct (_ || _).
Qed.

Lemma same_versions_failed old new :
  same_versions old new → health new = FAILED →
  new = mkInstance (instance_id old) (code_version old)
                   (configuration_version old) FAILED.
Proof.
  intros (Hid & Hcode & Hconf) Hhealth. destruct new. simpl in *. by subst.
Qed.

(** X19.  After a call that is not a dry run and returns without
    rollback, every instance is accounted for: an instance that had the
    desired versions is untouched (also its health); any other instance
    either has its id in [updated] and is at the desired versions and
    HEALTHY, or has its id in [failed] and has its old versions and
    health FAILED. *)
Theorem deploy_final_fleet
    (deadline : nat → option nat) (w : World) (desired : SystemState)
    (config : DeploymentConfig) (r : DeploymentResult) (w' : World) :
  deploy deadline w desired config false = (Returned r, w') →
  rolled_back r = false →
  ∀ k old, fleet w !! k = Some old →
    ∃ new, fleet w' !! k = Some new ∧
      (matches desired old → new = old) ∧
      (¬ matches desired old →
         (instance_id old ∈ updated r ∧
          new = mkInstance (instance_id old) (sys_code_version desired)
                           (sys_configuration_version desired) HEALTHY) ∨
         (instance_id old ∈ failed r ∧
          new = mkInstance (instance_id old) (code_version old)
                           (configuration_version old) FAILED)).
Proof.
  intros Hdeploy Hrb k old Hold.
  pose proof (deploy_post deadline w desired config false) as Hpost.
  rewrite Hdeploy in Hpost. cbv zeta in Hpost.
  destruct Hpost as (Hids & _ & Hpost).
  assert (k < length (fleet w))%nat as Hk by (by eapply lookup_lt_Some).
  assert (fleet w !!! k = old) as Htotal by (by apply list_lookup_total_correct).
  destruct (lookup_lt_is_Some_2 (fleet w') k) as [new Hnew].
  { by rewrite (ids_length _ _ Hids). }
  assert (fleet w' !!! k = new) as Htotal' by (by apply list_lookup_total_correct).
  exists new. split; [done|].
  pose proof (to_update_iff desired (fleet w) k Hk) as Hiff. rewrite Htotal in Hiff.
  destruct (decide ((_find_instances_to_update (fleet w) desired).1 = []))
    as [Hnil|Hne].
  - rewrite Hnil in Hpost, Hiff. simpl in Hpost.
    destruct Hpost as (_ & _ & _ & _ & Hsame). rewrite Hsame in Hnew.
    assert (new = old) as -> by congruence.
    split; [done|]. intros Hno. apply Hiff in Hno. by apply elem_of_nil in Hno.
  - destruct (deploy_full _ _ _ _ _ _ Hdeploy Hne) as (batches & _ & Hfull).
    rewrite Hrb in Hfull.
    destruct Hfull as (_ & _ & _ & _ & _ & _ & Hframe & Hpos).
    split.
    + intros Hm. rewrite Hframe in Hnew by (rewrite Hiff; tauto). congruence.
    + intros Hno. apply Hiff in Hno. specialize (Hpos k Hno).
      rewrite Htotal, Htotal' in Hpos.
      destruct Hpos as [[Hin ->]|(Hin & Hsame & Hhealth)]; [by left|].
      right. split; [done|]. by apply same_versions_failed.
Qed.

(** X20.  Batch closure of the history: in every result the number of
    [batch_start] events equals the number of [batch_completed] events
    plus the number of [abort] events, there is one [abort] event exactly
    when the result is rolled back, and a call that is not a dry run and
    returns without rollback has started
    [ceil(to_update / batch_size)] batches. *)
Theorem deploy_batch_closure
    (deadline : nat → option nat) (w : World) (desired : SystemState)
    (config : DeploymentConfig) (dry_run : bool)
    (r : DeploymentResult) (w' : World) :
  deploy deadline w desired config dry_run = (Returned r, w') →
  let total := length (filter (λ i, ¬ matches desired i) (fleet w)) in
  let n := Z.to_nat (batch_size config) in
  count_events is_batch_start (history r)
  = (count_events is_batch_completed (history r)
     + count_events is_abort (history r))%nat ∧
  count_events is_abort (history r) = (if rolled_back r then 1 else 0)%nat ∧
  (dry_run = false → rolled_back r = false →
   count_events is_batch_start (history r) = ((total + n - 1) / n)%nat).
Proof.
  intros Hdeploy total n.
  pose proof (find_instances_length desired (fleet w)) as Hlen.
  rewrite needing_update_matches in Hlen. fold total in Hlen.
  destruct (decide (dry_run = true ∨
                    (_find_instances_to_update (fleet w) desired).1 = []))
    as [Hshort|Hlong].
  - unfold deploy in Hdeploy.
    destruct (deployment_in_progress (current w)); [done|].
    destruct (_find_instances_to_update (fleet w) desired) as [to_update already].
    simpl in Hshort, Hlen.
    assert (dry_run || (length to_update =? 0)%nat = true) as Hb.
    { destruct Hshort as [->| ->]; [done|]. by rewrite orb_true_r. }
    rewrite Hb in Hdeploy. unfold _handle_dry_run_or_no_updates in Hdeploy.
    destruct dry_run.
    + injection Hdeploy as <- <-. by compute.
    + simpl in Hb. rewrite Hb in Hdeploy. injection Hdeploy as <- <-.
      split; [by compute|]. split; [by compute|]. intros _ _.
      apply Nat.eqb_eq in Hb. rewrite <- Hlen, Hb.
      unfold count_events. simpl.
      destruct n as [|n]; [done|]. symmetry. apply Nat.div_small. lia.
  - assert (dry_run = false) as -> by (destruct dry_run; tauto).
    assert ((_find_instances_to_update (fleet w) desired).1 ≠ []) as Hne by tauto.
    destruct (deploy_full _ _ _ _ _ _ Hdeploy Hne) as (batches & Hplan & Hfull).
    destruct (rolled_back r).
    + destruct Hfull as (_ & _ & _ & Hs & _ & Ha & _).
      split; [lia|]. split; [done|]. done.
    + destruct Hfull as (_ & _ & _ & Hs & Hc & Ha & _).
      split; [lia|]. split; [done|]. intros _ _.
      rewrite Hs, (plan_batches_length _ _ _ Hplan), Hlen. done.
Qed.

(** ** A run without injected failures *)

Lemma should_fail_remaining_le inj instance id :
  remaining_failures (should_fail inj instance).2 id ≤ remaining_failures inj id.
Proof.
  unfold remaining_failures, should_fail. simpl.
  destruct (decide (instance_id instance = id)) as [<-|Hne].
  - rewrite lookup_insert_eq. simpl. lia.
  - rewrite lookup_insert_ne by done. lia.
Qed.

Lemma update_instance_quiet deadline inj instance desired config :
  timeout_active config = false →
  remaining_failures inj (instance_id instance) ≤ 0 →
  _update_instance deadline inj instance desired config
  = (inr (true, None), updated_instance desired instance,
     (should_fail inj instance).2).
Proof.
  intros Htimeout Hquiet. unfold _update_instance. rewrite Htimeout.
  destruct (do_update_outcome inj instance desired config) as (Hok & _).
  rewrite Hok by (unfold max_attempts_of; lia).
  replace (Z.to_nat (remaining_failures inj (instance_id instance))) with 0%nat
    by lia.
  by rewrite should_fail_times_S.
Qed.

Lemma gather_quiet deadline desired config (batch : list nat) :
  timeout_active config = false →
  ∀ fleet inj,
    Forall (λ k, k < length fleet)%nat batch →
    (∀ id, id ∈ instance_id <$> fleet → remaining_failures inj id ≤ 0) →
    let '(r, fleet', inj') := gather batch deadline desired config fleet inj in
    (∃ outcomes, r = inr outcomes ∧ ∀ o, o ∈ outcomes → o.1 = true) ∧
    (∀ id, remaining_failures inj' id ≤ remaining_failures inj id).
Proof.
  intros Htimeout.
  induction batch as [|k batch IH]; intros fleet inj Hbound Hquiet; simpl.
  { split; [|done]. exists []. split; [done|]. intros o Ho.
    by apply elem_of_nil in Ho. }
  apply Forall_cons in Hbound as [Hk Hbound].
  assert (instance_id (fleet !!! k) ∈ instance_id <$> fleet) as Hin.
  { apply list_elem_of_fmap_2. by apply list_elem_of_lookup_total_2. }
  rewrite (update_instance_quiet (deadline k) inj (fleet !!! k) desired config)
    by auto.
  assert (instance_id <$> <[k := updated_instance desired (fleet !!! k)]> fleet
          = instance_id <$> fleet) as Hids by (by apply ids_insert).
  specialize (IH (<[k := updated_instance desired (fleet !!! k)]> fleet)
                 (should_fail inj (fleet !!! k)).2).
  rewrite length_insert, Hids in IH. specialize (IH Hbound).
  destruct (gather _ _ _ _ _ _) as [[r fleet'] inj'].
  destruct IH as [(outcomes & -> & Htrue) Hle].
  { intros id Hid. etransitivity; [apply should_fail_remaining_le|]. auto. }
  split.
  - exists ((true, None) :: outcomes). split; [done|].
    intros o [->|Ho]%elem_of_cons; [done|auto].
  - intros id. etransitivity; [apply Hle|]. apply should_fail_remaining_le.
Qed.

Lemma run_batches_loop_quiet batches deadline desired config snapshot
    (remaining : list (list nat)) :
  timeout_active config = false →
  ∀ batch_idx st,
    Forall (λ k, k < length (ls_fleet st))%nat (concat remaining) →
    (∀ id, id ∈ instance_id <$> ls_fleet st →
           remaining_failures (ls_injector st) id ≤ 0) →
    ls_failed st = [] →
    let '(r, st') := _run_batches_loop remaining batch_idx batches deadline
                                       desired config snapshot st in
    r = inr false ∧ ls_failed st' = [] ∧
    ls_updated st' = ls_updated st ++ ids_of (ls_fleet st) (concat remaining) ∧
    summary (ls_result st') = summary (ls_result st).
Proof.
  intros Htimeout.
  induction remaining as [|batch remaining IH]; intros batch_idx st Hbound Hquiet Hnil.
  { simpl. by rewrite app_nil_r. }
  cbn [_run_batches_loop concat] in *.
  apply Forall_app in Hbound as [Hboundb Hboundr].
  pose proof (gather_quiet deadline desired config batch Htimeout
                (ls_fleet st) (ls_injector st) Hboundb Hquiet) as Hgq.
  pose proof (gather_post deadline desired config batch (ls_fleet st) (ls_injector st))
    as Hgather.
  destruct (gather _ _ _ _ _ _) as [[r fleet1] inj1].
  destruct Hgq as [(outcomes & -> & Htrue) Hle].
  destruct Hgather as (Hids & _ & Hlen & _).
  destruct (process_batch_results_members fleet1 batch_idx batch outcomes
              (history_append
                 (batch_start batch_idx (ids_of (ls_fleet st) batch))
                 (ls_result st))
              (ls_updated st) (ls_failed st) Hlen)
    as (U1 & F1 & result1 & -> & Hsum & _ & _ & Hall).
  destruct (Hall Htrue) as [-> ->]. rewrite Hnil. simpl.
  unfold _check_failure_limits at 1. simpl. rewrite orb_true_r.
  match goal with
  | |- context [_run_batches_loop _ _ _ _ _ _ _ ?st1] =>
      specialize (IH (S batch_idx) st1)
  end.
  cbn [ls_fleet ls_injector ls_failed ls_updated] in IH.
  rewrite (ids_length _ _ Hids), Hids in IH.
  specialize (IH Hboundr).
  destruct (_run_batches_loop _ _ _ _ _ _ _ _) as [r st'].
  destruct IH as (-> & Hfailed & Hupdated & Hsum'); [|done|].
  { intros id Hid. etransitivity; [apply Hle|]. auto. }
  split; [done|]. split; [done|]. split.
  - rewrite Hupdated, <- app_assoc, ids_of_app.
    by rewrite !(ids_of_ext fleet1 (ls_fleet st)) by done.
  - by rewrite Hsum'.
Qed.

Lemma deploy_quiet_core deadline w desired config :
  deployment_in_progress (current w) = false →
  1 ≤ batch_size config →
  timeout_active config = false →
  (∀ i, i ∈ fleet w → remaining_failures (injector w) (instance_id i) ≤ 0) →
  ∃ r w',
    deploy deadline w desired config false = (Returned r, w') ∧
    rolled_back r = false ∧ failed r = [] ∧
    updated r = ids_of (fleet w) (_find_instances_to_update (fleet w) desired).1.
Proof.
  intros Hflag Hbs Htimeout Hquiet. unfold deploy. rewrite Hflag.
  pose proof (find_instances_post desired (fleet w)) as Hfind.
  destruct (_find_instances_to_update (fleet w) desired) as [to_update already].
  destruct Hfind as (_ & _ & Hbound & _).
  cbn [fst orb]. unfold _handle_dry_run_or_no_updates.
  destruct (length to_update =? 0)%nat eqn:Hlen.
  { apply Nat.eqb_eq, length_zero_iff_nil in Hlen. subst. by eexists _, _. }
  unfold deploy_try.
  destruct (plan_batches to_update (batch_size config)) as [e|batches] eqn:Hplan.
  { unfold plan_batches in Hplan.
    by rewrite (proj2 (Z.leb_gt (batch_size config) 0)) in Hplan by lia. }
  apply plan_batches_concat in Hplan.
  cbn [fleet injector current]. unfold _run_batches.
  pose proof (run_batches_loop_quiet batches deadline desired config
                (take_snapshot (fleet w)) batches Htimeout 1%nat
                (mkLoop (set_skipped already new_result) [] [] (fleet w) (injector w)))
    as Hloop.
  rewrite Hplan in Hloop. cbn [ls_fleet ls_injector ls_failed ls_updated] in Hloop.
  specialize (Hloop Hbound).
  destruct (_run_batches_loop _ _ _ _ _ _ _ _) as [res st'].
  destruct Hloop as (-> & Hfailed & Hupdated & Hsum); [|done|].
  { intros id (i & -> & Hi)%list_elem_of_fmap. by apply Hquiet. }
  unfold _finish_deployment. eexists _, _. split; [done|]. simpl.
  injection Hsum as _ _ _ _ _ Hrb. by rewrite Hfailed, Hupdated.
Qed.

(** X21.  When the injector has no failure left for any instance of the
    fleet, no timeout is configured and [batch_size] is at least 1, a call
    that is not a dry run returns [success] true with [failed] empty and
    [updated] the ids of the instances that needed an update, in input
    order; these instances end at the desired versions and HEALTHY, the
    others are untouched, and [current] has the desired versions. *)
Theorem deploy_all_succeed
    (deadline : nat → option nat) (w : World) (desired : SystemState)
    (config : DeploymentConfig) :
  deployment_in_progress (current w) = false →
  1 ≤ batch_size config →
  timeout_active config = false →
  (∀ i, i ∈ fleet w → remaining_failures (injector w) (instance_id i) ≤ 0) →
  ∃ r w',
    deploy deadline w desired config false = (Returned r, w') ∧
    success r = true ∧
    rolled_back r = false ∧
    failed r = [] ∧
    updated r = instance_id <$> filter (λ i, ¬ matches desired i) (fleet w) ∧
    fleet w'
    = (λ i, if decide (matches desired i) then i
            else mkInstance (instance_id i) (sys_code_version desired)
                            (sys_configuration_version desired) HEALTHY)
        <$> fleet w ∧
    current w' = mkSystem (sys_code_version desired)
                          (sys_configuration_version desired) false.
Proof.
  intros Hflag Hbs Htimeout Hquiet.
  destruct (deploy_quiet_core deadline w desired config Hflag Hbs Htimeout Hquiet)
    as (r & w' & Hdeploy & Hrb & Hfailed & Hupdated).
  exists r, w'. split; [done|].
  pose proof (deploy_post deadline w desired config false) as Hpost.
  pose proof (find_instances_post desired (fleet w)) as Hfind.
  rewrite Hdeploy in Hpost. cbv zeta in Hpost.
  destruct Hpost as (Hids & _ & Hpost).
  assert (∀ k old, fleet w !! k = Some old →
            (matches desired old → fleet w' !! k = Some old) ∧
            (¬ matches desired old →
             fleet w' !! k = Some (updated_instance desired old))) as Hfleet.
  { intros k old Hold.
    assert (k < length (fleet w))%nat as Hk by (by eapply lookup_lt_Some).
    assert (fleet w !!! k = old) as Htotal
      by (by apply list_lookup_total_correct).
    pose proof (to_update_iff desired (fleet w) k Hk) as Hiff.
    rewrite Htotal in Hiff.
    destruct (decide ((_find_instances_to_update (fleet w) desired).1 = []))
      as [Hnil|Hne].
    - rewrite Hnil in Hpost, Hiff. simpl in Hpost.
      destruct Hpost as (_ & _ & _ & _ & ->).
      split; [done|]. intros Hno. apply Hiff in Hno. by apply elem_of_nil in Hno.
    - destruct (deploy_full _ _ _ _ _ _ Hdeploy Hne) as (batches & _ & Hfull).
      rewrite Hrb in Hfull.
      destruct Hfull as (_ & _ & _ & _ & _ & _ & Hframe & Hpos).
      split.
      + intros Hm. rewrite Hframe; [done|]. rewrite Hiff. tauto.
      + intros Hno. apply Hiff in Hno. specialize (Hpos k Hno).
        rewrite Htotal in Hpos. rewrite Hfailed in Hpos.
        destruct Hpos as [[_ Hnew]|[Hin _]]; [|by apply elem_of_nil in Hin].
        rewrite <- Hnew. apply list_lookup_lookup_total_lt.
        by rewrite (ids_length _ _ Hids). }
  assert (current w' = mkSystem (sys_code_version desired)
                                (sys_configuration_version desired) false ∧
          success r = true) as [Hcur Hsucc].
  { destruct (decide ((_find_instances_to_update (fleet w) desired).1 = []))
      as [Hnil|Hne].
    - rewrite Hnil in Hpost. simpl in Hpost. destruct Hpost as (? & _).
      split; [|done].
      unfold deploy in Hdeploy. rewrite Hflag in Hdeploy.
      destruct (_find_instances_to_update (fleet w) desired) as [tu al].
      simpl in Hnil. subst tu. simpl in Hdeploy. injection Hdeploy as <- <-.
      simpl. unfold set_system_versions. by rewrite Hflag.
    - destruct (deploy_full _ _ _ _ _ _ Hdeploy Hne) as (batches & _ & Hfull).
      rewrite Hrb in Hfull. destruct Hfull as (? & _).
      split; [done|].
      assert ((length (_find_instances_to_update (fleet w) desired).1 =? 0)%nat
              = false) as Hlen.
      { apply Nat.eqb_neq. by intros ?%length_zero_iff_nil. }
      rewrite Hlen, Hrb in Hpost. simpl in Hpost.
      destruct Hpost as (Hiff & _). by apply Hiff. }
  split; [done|]. split; [done|]. split; [done|].
  split.
  { rewrite Hupdated.
    destruct (_find_instances_to_update (fleet w) desired) as [to_update already].
    cbn [fst]. destruct Hfind as (_ & -> & _). by rewrite needing_update_matches. }
  split; [|done].
  apply list_eq. intros k. rewrite list_lookup_fmap.
  destruct (fleet w !! k) as [old|] eqn:Hold; simpl.
  - destruct (Hfleet k old Hold) as [Hm Hno].
    destruct (decide (matches desired old)); auto.
  - apply lookup_ge_None. rewrite (ids_length _ _ Hids).
    by apply lookup_ge_None.
Qed.

(** ** Per-instance history *)

Lemma node_history_append_fresh id e r :
  per_node_history r !! id = None →
  per_node_history (node_history_append id e r)
  = <[id := [e]]> (per_node_history r).
Proof.
  intros Hnone. unfold node_history_append. simpl. rewrite Hnone.
  apply map_eq. intros id'. destruct (decide (id = id')) as [<-|Hne].
  - by rewrite lookup_alter_eq, !lookup_insert_eq.
  - by rewrite lookup_alter_ne, !lookup_insert_ne.
Qed.

(** The event [_process_batch_results] records for an outcome. *)
Lemma process_batch_results_history fleet batch_idx (batch : list nat) :
  ∀ outcomes result updated failed,
    length outcomes = length batch →
    NoDup (ids_of fleet batch) →
    (∀ id, id ∈ ids_of fleet batch → per_node_history result !! id = None) →
    let result' :=
      (_process_batch_results fleet batch outcomes batch_idx result
                              updated failed).1.1 in
    (∀ id, id ∉ ids_of fleet batch →
           per_node_history result' !! id = per_node_history result !! id) ∧
    (∀ i k (o : bool * option string),
       batch !! i = Some k → outcomes !! i = Some o →
       per_node_history result' !! instance_id (fleet !!! k)
       = Some [if o.1 then node_updated batch_idx
               else node_failed batch_idx o.2]).
Proof.
  unfold _process_batch_results.
  induction batch as [|k batch IH];
    intros [|[ok error] outcomes] result updated failed Hlen Hnd Hfresh; try done.
  cbn [zip zip_with foldl]. injection Hlen as Hlen.
  cbn [ids_of fmap list_fmap] in Hnd, Hfresh. fold (ids_of fleet batch) in *.
  apply NoDup_cons in Hnd as [Hk Hnd].
  set (id := instance_id (fleet !!! k)) in *.
  set (e := if ok then node_updated batch_idx else node_failed batch_idx error).
  assert (per_node_history (node_history_append id e result)
          = <[id := [e]]> (per_node_history result)) as Hstep.
  { apply node_history_append_fresh. apply Hfresh. by left. }
  assert (∃ upd fl,
            (if ok
             then (node_history_append id (node_updated batch_idx) result,
                   updated ++ [id], failed)
             else (node_history_append id (node_failed batch_idx error) result,
                   updated, failed ++ [id]))
            = (node_history_append id e result, upd, fl)) as (upd & fl & ->).
  { subst e. destruct ok; eauto. }
  specialize (IH outcomes (node_history_append id e result) upd fl Hlen Hnd).
  destruct IH as [Hother Hrec].
  { intros id' Hid'. rewrite Hstep, lookup_insert_ne; [|by intros <-].
    apply Hfresh. by right. }
  cbn [ids_of fmap list_fmap]. fold (ids_of fleet batch). fold id. split.
  - intros id' [Hne Hnotin]%not_elem_of_cons.
    rewrite Hother by done. rewrite Hstep. by rewrite lookup_insert_ne.
  - intros [|i] k' o Hk' Ho; simpl in Hk', Ho.
    + injection Hk' as <-. injection Ho as <-. fold id.
      rewrite Hother by done. rewrite Hstep. by rewrite lookup_insert_eq.
    + by apply Hrec with i.
Qed.

Lemma run_batches_loop_history batches deadline desired config snapshot
    (remaining : list (list nat)) :
  ∀ batch_idx st,
    NoDup (ids_of (ls_fleet st) (concat remaining)) →
    (∀ id, id ∈ ids_of (ls_fleet st) (concat remaining) →
           per_node_history (ls_result st) !! id = None) →
    let '(r, st') := _run_batches_loop remaining batch_idx batches deadline
                                       desired config snapshot st in
    r = inr false →
    ∃ U F,
      ls_updated st' = ls_updated st ++ U ∧
      ls_failed st' = ls_failed st ++ F ∧
      (∀ id, id ∉ ids_of (ls_fleet st) (concat remaining) →
             per_node_history (ls_result st') !! id
             = per_node_history (ls_result st) !! id) ∧
      (∀ id, id ∈ ids_of (ls_fleet st) (concat remaining) →
         (id ∈ U ∧ ∃ b, per_node_history (ls_result st') !! id
                        = Some [node_updated b]) ∨
         (id ∈ F ∧ ∃ b error, per_node_history (ls_result st') !! id
                              = Some [node_failed b error])).
Proof.
  induction remaining as [|batch remaining IH]; intros batch_idx st Hnd Hfresh.
  { simpl. intros _. exists [], []. rewrite !app_nil_r.
    repeat split; try done. intros id Hid. by apply elem_of_nil in Hid. }
  cbn [_run_batches_loop concat] in *.
  rewrite ids_of_app in Hnd, Hfresh.
  apply NoDup_app in Hnd as (Hndb & Hdisj & Hndr).
  pose proof (gather_post deadline desired config batch (ls_fleet st) (ls_injector st))
    as Hgather.
  destruct (gather _ _ _ _ _ _) as [[r fleet1] inj1].
  destruct Hgather as (Hids & _ & Hr).
  destruct r as [e|outcomes]; [done|].
  destruct Hr as [Hlen _].
  set (result0 := history_append
                    (batch_start batch_idx (ids_of (ls_fleet st) batch))
                    (ls_result st)).
  pose proof (process_batch_results_history fleet1 batch_idx batch outcomes
                result0 (ls_updated st) (ls_failed st) Hlen) as Hhist.
  rewrite (ids_of_ext fleet1 (ls_fleet st)) in Hhist by done.
  specialize (Hhist Hndb).
  destruct (process_batch_results_members fleet1 batch_idx batch outcomes
              result0 (ls_updated st) (ls_failed st) Hlen)
    as (U1 & F1 & result1 & Heq & _ & _ & Hmem & _).
  rewrite Heq in Hhist |- *. cbn [fst] in Hhist.
  destruct Hhist as [Hother Hrec].
  { intros id Hid. apply Hfresh, elem_of_app. by left. }
  destruct (_check_failure_limits _ _ _); [done|].
  match goal with
  | |- context [_run_batches_loop _ _ _ _ _ _ _ ?st1] =>
      specialize (IH (S batch_idx) st1)
  end.
  cbn [ls_fleet ls_result ls_updated ls_failed] in IH.
  rewrite (ids_of_ext fleet1 (ls_fleet st)) in IH by done.
  specialize (IH Hndr).
  destruct (_run_batches_loop _ _ _ _ _ _ _ _) as [r st'].
  intros ->.
  destruct IH as (U2 & F2 & HU & HF & Hother' & Hrec'); [|done|].
  { intros id Hid. simpl. rewrite Hother.
    - apply Hfresh, elem_of_app. by right.
    - intros Hb. by apply (Hdisj id Hb). }
  exists (U1 ++ U2), (F1 ++ F2). rewrite HU, HF, <- !app_assoc.
  split; [done|]. split; [done|]. split.
  - intros id Hid. rewrite ids_of_app in Hid.
    apply not_elem_of_app in Hid as [Hnb Hnr]. rewrite Hother' by done. simpl.
    by rewrite Hother.
  - intros id Hid. rewrite ids_of_app in Hid.
    apply elem_of_app in Hid as [Hb|Hr].
    + apply list_elem_of_fmap in Hb as (k & -> & Hk).
      apply list_elem_of_lookup in Hk as [i Hi].
      destruct (lookup_lt_is_Some_2 outcomes i) as [o Ho].
      { rewrite Hlen. by eapply lookup_lt_Some. }
      specialize (Hmem i k o Hi Ho). specialize (Hrec i k o Hi Ho).
      rewrite (lookup_total_id_ext fleet1 (ls_fleet st) k Hids) in Hmem, Hrec.
      assert (instance_id (ls_fleet st !!! k)
                ∉ ids_of (ls_fleet st) (concat remaining)) as Hnr.
      { apply Hdisj.
        apply (list_elem_of_fmap_2 (λ k, instance_id (ls_fleet st !!! k))).
        by eapply list_elem_of_lookup_2. }
      rewrite Hother' by done. simpl. rewrite Hrec.
      destruct (o.1); [left|right]; (split; [apply elem_of_app; by left|]); eauto.
    + destruct (Hrec' id Hr) as [[Hin Hev]|[Hin Hev]]; [left|right];
        (split; [apply elem_of_app; by right|done]).
Qed.

(** X22.  For a fleet with distinct ids, after a call that is not a dry
    run and returns without rollback, the per-instance history has
    exactly one event for each attempted instance: an [updated] event
    for every id in [updated], a [failed] event for every id in [failed],
    and no entry for any other id. *)
Theorem deploy_per_node_history
    (deadline : nat → option nat) (w : World) (desired : SystemState)
    (config : DeploymentConfig) (r : DeploymentResult) (w' : World) :
  NoDup (instance_id <$> fleet w) →
  deploy deadline w desired config false = (Returned r, w') →
  rolled_back r = false →
  (∀ id, id ∈ updated r →
         ∃ b, per_node_history r !! id = Some [node_updated b]) ∧
  (∀ id, id ∈ failed r →
         ∃ b error, per_node_history r !! id = Some [node_failed b error]) ∧
  (∀ id, id ∉ updated r ++ failed r → per_node_history r !! id = None).
Proof.
  intros Hnd Hdeploy Hrb.
  pose proof (deploy_post deadline w desired config false) as Hpost.
  pose proof (find_instances_post desired (fleet w)) as Hfind.
  rewrite Hdeploy in Hpost. cbv zeta in Hpost.
  unfold deploy in Hdeploy.
  destruct (deployment_in_progress (current w)); [done|].
  destruct (_find_instances_to_update (fleet w) desired) as [to_update already].
  destruct Hfind as (_ & Hids & Hbound & Hndpos & _ & Hall).
  destruct Hpost as (_ & _ & Hpost). cbn [fst orb] in *.
  destruct (length to_update =? 0)%nat eqn:Hlen.
  { unfold _handle_dry_run_or_no_updates in Hdeploy. simpl in Hdeploy.
    rewrite Hlen in Hdeploy. injection Hdeploy as <- <-. simpl.
    repeat split; try done; intros id Hid; by apply elem_of_nil in Hid. }
  rewrite Hrb in Hpost. destruct Hpost as (_ & Hupd & Hfail & Hperm & _).
  assert (NoDup (ids_of (fleet w) to_update)) as Hndu.
  { rewrite <- Hall in Hnd. by apply NoDup_app in Hnd as (? & _). }
  unfold deploy_try in Hdeploy. cbn [fleet injector current] in Hdeploy.
  destruct (plan_batches to_update (batch_size config)) as [e|batches] eqn:Hplan;
    [done|].
  apply plan_batches_concat in Hplan.
  pose proof (run_batches_loop_history batches deadline desired config
                (take_snapshot (fleet w)) batches 1%nat
                (mkLoop (set_skipped already new_result) [] [] (fleet w) (injector w)))
    as Hloop.
  cbn [ls_fleet ls_result] in Hloop. rewrite Hplan in Hloop.
  specialize (Hloop Hndu (λ _ _, eq_refl)).
  pose proof (run_batches_loop_full batches deadline desired config
                (take_snapshot (fleet w)) batches 1%nat
                (mkLoop (set_skipped already new_result) [] [] (fleet w) (injector w)))
    as Hfull.
  cbn [ls_fleet] in Hfull. rewrite Hplan in Hfull.
  specialize (Hfull Hndpos Hbound). cbv zeta in Hfull.
  unfold _run_batches in Hdeploy.
  destruct (_run_batches_loop _ _ _ _ _ _ _ _) as [res st'].
  destruct res as [e|[|]]; [done| |].
  { injection Hdeploy as <- <-.
    destruct Hfull as (? & ? & ? & _ & _ & _ & Hrb' & _). congruence. }
  clear Hfull.
  destruct (Hloop eq_refl) as (U & F & HU & HF & Hother & Hrec).
  unfold _finish_deployment in Hdeploy. injection Hdeploy as <- <-.
  simpl in *. subst U F.
  assert (NoDup (ls_updated st' ++ ls_failed st')) as Hnduf by (by rewrite Hperm).
  apply NoDup_app in Hnduf as (_ & Hdisj & _).
  split; [|split].
  - intros id Hid.
    destruct (Hrec id (elem_of_sublist _ _ _ Hid Hupd)) as [[_ ?]|[Hin _]]; [done|].
    by destruct (Hdisj id Hid).
  - intros id Hid.
    destruct (Hrec id (elem_of_sublist _ _ _ Hid Hfail)) as [[Hin _]|[_ ?]]; [|done].
    by destruct (Hdisj id Hin).
  - intros id Hid. rewrite Hother; [done|]. by rewrite <- Hperm.
Qed.

(** ** Command-line front end and the external rollback *)

Lemma asdict_document_lookup (i : RawInstance) :
  asdict_document i !! "instance_id"%string = Some (raw_instance_id i) ∧
  asdict_document i !! "code_version"%string = Some (raw_code_version i) ∧
  asdict_document i !! "configuration_version"%string
  = Some (raw_configuration_version i) ∧
  asdict_document i !! "health"%string = Some (raw_health i).
Proof. unfold asdict_document. simpl. by repeat split. Qed.

Lemma load_instance_asdict (i : RawInstance) :
  load_instance (asdict_document i) = inr i.
Proof.
  destruct (asdict_document_lookup i) as (Hid & Hcode & Hconf & Hhealth).
  unfold load_instance. rewrite Hid, Hcode, Hconf, Hhealth. by destruct i.
Qed.

(** X23.  Saving a fleet and loading it again gives the same instances in
    the same order, with every field as it was. *)
Theorem load_save_roundtrip (instances : list RawInstance) :
  load_instances (save_instances instances) = inr instances.
Proof.
  unfold save_instances.
  induction instances as [|i instances IH]; [done|].
  cbn [fmap list_fmap load_instances]. fold (asdict_document <$> instances).
  by rewrite load_instance_asdict, IH.
Qed.

(** What makes an entry of a fleet document loadable. *)
Lemma load_instance_cases (i : gmap string string) :
  match load_instance i with
  | inr instance =>
      i !! "instance_id"%string = Some (raw_instance_id instance) ∧
      i !! "code_version"%string = Some (raw_code_version instance) ∧
      i !! "configuration_version"%string
      = Some (raw_configuration_version instance) ∧
      raw_health instance = default "healthy"%string (i !! "health"%string)
  | inl e =>
      ∃ key, e = KeyError key ∧ i !! key = None ∧
             key ∈ ["instance_id"; "code_version"; "configuration_version"]%string
  end.
Proof.
  unfold load_instance.
  destruct (i !! "instance_id"%string) eqn:Hid;
    [|exists "instance_id"%string; repeat split; try done; set_solver].
  destruct (i !! "code_version"%string) eqn:Hcode;
    [|exists "code_version"%string; repeat split; try done; set_solver].
  destruct (i !! "configuration_version"%string) eqn:Hconf;
    [|exists "configuration_version"%string; repeat split; try done; set_solver].
  done.
Qed.

(** X24.  [load_instances] reads a fleet document entry by entry, in
    order: it succeeds exactly when every entry has the keys
    instance_id, code_version and configuration_version; the instances
    then carry the values of these keys, and the value of [health] or,
    when that key is missing, "healthy"; the health string is not
    validated.  Otherwise it raises [KeyError] for a required key that
    some entry lacks, and gives no instances. *)
Theorem load_instances_cases (data : list (gmap string string)) :
  match load_instances data with
  | inr instances =>
      length instances = length data ∧
      ∀ k i, data !! k = Some i →
        ∃ instance, instances !! k = Some instance ∧
          i !! "instance_id"%string = Some (raw_instance_id instance) ∧
          i !! "code_version"%string = Some (raw_code_version instance) ∧
          i !! "configuration_version"%string
          = Some (raw_configuration_version instance) ∧
          raw_health instance = default "healthy"%string (i !! "health"%string)
  | inl e =>
      ∃ key i, e = KeyError key ∧ i ∈ data ∧ i !! key = None ∧
               key ∈ ["instance_id"; "code_version"; "configuration_version"]%string
  end.
Proof.
  induction data as [|i data IH]; simpl.
  { split; [done|]. intros k i Hk. done. }
  pose proof (load_instance_cases i) as Hi.
  destruct (load_instance i) as [e|instance].
  { destruct Hi as (key & -> & Hnone & Hkey). exists key, i.
    repeat split; try done. by left. }
  destruct (load_instances data) as [e|instances].
  { destruct IH as (key & i' & -> & Hin & Hnone & Hkey). exists key, i'.
    repeat split; try done. by right. }
  destruct IH as [Hlen IH]. split; [simpl; lia|].
  intros [|k] i' Hk; simpl in *.
  - injection Hk as <-. by exists instance.
  - by apply IH.
Qed.

Lemma Health_of_value_health_value (h : Health) :
  Health_of_value (health_value h) = inr h.
Proof. by destruct h. Qed.

Lemma rollback_instance_refines (snapshot : gmap string InstanceState)
    (i : InstanceState) :
  rollback_instance ((λ s, asdict_document (raw_of s)) <$> snapshot) (raw_of i)
  = (raw_of (restore snapshot i), None).
Proof.
  unfold rollback_instance, restore. rewrite lookup_fmap. simpl.
  destruct (snapshot !! instance_id i) as [snap|]; [|done]. simpl.
  destruct (asdict_document_lookup (raw_of snap)) as (_ & -> & -> & ->).
  simpl. by rewrite Health_of_value_health_value.
Qed.

Lemma rollback_document_refines_aux
    (instances : list InstanceState) (snapshot : gmap string InstanceState) :
  rollback_document (raw_of <$> instances)
                    ((λ s, asdict_document (raw_of s)) <$> snapshot)
  = (raw_of <$> rollback instances snapshot, None).
Proof.
  induction instances as [|i instances IH]; [done|].
  cbn [fmap list_fmap rollback_document]. fold (raw_of <$> instances).
  rewrite rollback_instance_refines, IH. done.
Qed.

(** X25.  On a snapshot as [deploy] takes it, written out as a document,
    the rollback of the front end does what the rollback inside [deploy]
    does: it raises nothing and leaves every instance as [rollback]
    leaves it. *)
Theorem rollback_document_refines
    (instances : list InstanceState) (snapshot : gmap string InstanceState) :
  rollback_document (raw_of <$> instances)
                    ((λ s, asdict_document (raw_of s)) <$> snapshot)
  = (raw_of <$> rollback instances snapshot, None).
Proof. apply rollback_document_refines_aux. Qed.

Lemma snapshot_document_take_snapshot (instances : list InstanceState) :
  snapshot_document (raw_of <$> instances)
  = (λ s, asdict_document (raw_of s)) <$> take_snapshot instances.
Proof.
  induction instances as [|i instances IH] using rev_ind.
  { unfold snapshot_document, take_snapshot. simpl. by rewrite fmap_empty. }
  rewrite fmap_app, take_snapshot_snoc, fmap_insert.
  unfold snapshot_document in *. simpl. by rewrite foldl_snoc, IH.
Qed.

(** X26.  The snapshot document the deploy command writes restores the
    fleet: for instances with valid health values and distinct ids,
    rolling back any later state of these instances (same ids in the
    same order) with that document raises nothing and gives every
    instance its code version, configuration version and health back. *)
Theorem rollback_document_restores (before after : list InstanceState) :
  NoDup (instance_id <$> before) →
  instance_id <$> after = instance_id <$> before →
  rollback_document (raw_of <$> after) (snapshot_document (raw_of <$> before))
  = (raw_of <$> before, None).
Proof.
  intros Hnd Hids.
  rewrite snapshot_document_take_snapshot.
  rewrite (rollback_document_refines_aux after (take_snapshot before)).
  by rewrite rollback_take_snapshot.
Qed.

Lemma rollback_document_app (done_ rest : list RawInstance) snapshot restored :
  rollback_document done_ snapshot = (restored, None) →
  rollback_document (done_ ++ rest) snapshot
  = (restored ++ (rollback_document rest snapshot).1,
     (rollback_document rest snapshot).2).
Proof.
  revert restored. induction done_ as [|i done_ IH]; intros restored Hdone.
  { simpl in *. injection Hdone as <-. simpl. by destruct (rollback_document _ _). }
  cbn [app rollback_document] in *.
  destruct (rollback_instance snapshot i) as [i' [e|]]; [done|].
  destruct (rollback_document done_ snapshot) as [done' e'] eqn:Hrec.
  injection Hdone as <- ->. by rewrite (IH done' eq_refl).
Qed.

(** X27.  The rollback of a snapshot document is not atomic: an entry
    whose health is not one of "healthy", "degraded" and "failed" (the
    values are case-sensitive) makes it raise [ValueError] at the
    instance with that id; the instances before it stay restored, this
    instance has its versions restored and its health unchanged, and the
    instances after it are not touched. *)
Theorem rollback_document_bad_health
    (done_ rest : list RawInstance) (x : RawInstance)
    (snapshot : gmap string (gmap string string)) (snap : gmap string string)
    (restored : list RawInstance) (code config value : string) :
  rollback_document done_ snapshot = (restored, None) →
  snapshot !! raw_instance_id x = Some snap →
  snap !! "code_version"%string = Some code →
  snap !! "configuration_version"%string = Some config →
  snap !! "health"%string = Some value →
  value ∉ ["healthy"; "degraded"; "failed"]%string →
  rollback_document (done_ ++ x :: rest) snapshot
  = (restored ++ mkRaw (raw_instance_id x) code config (raw_health x) :: rest,
     Some (HealthValueError value)).
Proof.
  intros Hdone Hsnap Hcode Hconfig Hhealth Hbad.
  rewrite (rollback_document_app done_ (x :: rest) snapshot restored Hdone).
  cbn [rollback_document]. unfold rollback_instance.
  rewrite Hsnap, Hcode, Hconfig, Hhealth. simpl.
  assert (Health_of_value value = inl (HealthValueError value)) as ->; [|done].
  unfold Health_of_value.
  destruct (String.eqb_spec value "healthy") as [->|_]; [set_solver|].
  destruct (String.eqb_spec value "degraded") as [->|_]; [set_solver|].
  destruct (String.eqb_spec value "failed") as [->|_]; [set_solver|].
  done.
Qed.

(** ** Witnesses of the further properties *)

Lemma rollback_lookup_witness :
  [mkInstance "id0" "newC" "newK" FAILED] !! 0%nat
  = Some (mkInstance "id0" "newC" "newK" FAILED) ∧
  (∀ snap, take_snapshot Scenario.fleet2 !! "id0"%string = Some snap →
     rollback [mkInstance "id0" "newC" "newK" FAILED]
              (take_snapshot Scenario.fleet2) !! 0%nat
     = Some (mkInstance "id0" (code_version snap)
                        (configuration_version snap) (health snap))) ∧
  (take_snapshot Scenario.fleet2 !! "id0"%string = None →
     rollback [mkInstance "id0" "newC" "newK" FAILED]
              (take_snapshot Scenario.fleet2) !! 0%nat
     = Some (mkInstance "id0" "newC" "newK" FAILED)) ∧
  rollback [mkInstance "id0" "newC" "newK" FAILED] ∅
  = [mkInstance "id0" "newC" "newK" FAILED].
Proof.
  split; [reflexivity|].
  exact (rollback_lookup [mkInstance "id0" "newC" "newK" FAILED]
           (take_snapshot Scenario.fleet2) 0
           (mkInstance "id0" "newC" "newK" FAILED) eq_refl).
Defined.

Lemma rollback_after_deploy_witness :
  NoDup (instance_id <$> fleet Cases.partial_world) ∧
  rollback (fleet (deploy Scenario.no_deadline Cases.partial_world
                          Scenario.desired Cases.plain_config false).2)
           (take_snapshot (fleet Cases.partial_world))
  = fleet Cases.partial_world.
Proof.
  assert (NoDup (instance_id <$> fleet Cases.partial_world)) as Hnd.
  { apply (bool_decide_unpack _). vm_compute. exact I. }
  split; [exact Hnd|].
  exact (rollback_after_deploy Scenario.no_deadline Cases.partial_world
           Scenario.desired Cases.plain_config false Hnd).
Defined.

Lemma deploy_skipped_witness :
  Cases.mixed_run = (Returned (Scenario.result_of Cases.mixed_run), Cases.mixed_run.2) ∧
  skipped (Scenario.result_of Cases.mixed_run)
  = instance_id <$> filter (matches Scenario.desired) (fleet Cases.mixed_world).
Proof.
  assert (Cases.mixed_run
          = (Returned (Scenario.result_of Cases.mixed_run), Cases.mixed_run.2))
    as Hrun by (vm_compute; reflexivity).
  split; [exact Hrun|].
  exact (deploy_skipped Scenario.no_deadline Cases.mixed_world Scenario.desired
           Cases.plain_config false _ _ Hrun).
Defined.

Lemma deploy_dry_run_witness :
  deployment_in_progress (current Cases.mixed_world) = false ∧
  deploy Scenario.no_deadline Cases.mixed_world Scenario.desired
         (Scenario.config 0 None) true
  = (Returned (mkResult true [] []
                 (instance_id <$> filter (matches Scenario.desired)
                                         (fleet Cases.mixed_world))
                 None false
                 [dry_run_event
                    (length (filter (λ i, ¬ matches Scenario.desired i)
                                    (fleet Cases.mixed_world)))]
                 ∅),
     Cases.mixed_world).
Proof.
  split; [reflexivity|].
  exact (deploy_dry_run Scenario.no_deadline Cases.mixed_world Scenario.desired
           (Scenario.config 0 None) eq_refl).
Defined.

Lemma deploy_no_updates_needed_witness :
  deployment_in_progress (current Cases.done_world) = false ∧
  Forall (matches Scenario.desired) (fleet Cases.done_world) ∧
  deploy Scenario.no_deadline Cases.done_world Scenario.desired
         Cases.plain_config false
  = (Returned (mkResult true [] [] (instance_id <$> fleet Cases.done_world)
                        None false [no_updates_needed 0] ∅),
     mkWorld (fleet Cases.done_world)
             (mkSystem (sys_code_version Scenario.desired)
                       (sys_configuration_version Scenario.desired) false)
             (injector Cases.done_world)).
Proof.
  assert (Forall (matches Scenario.desired) (fleet Cases.done_world)) as Hall.
  { apply (bool_decide_unpack _). vm_compute. exact I. }
  split; [reflexivity|]. split; [exact Hall|].
  exact (deploy_no_updates_needed Scenario.no_deadline Cases.done_world
           Scenario.desired Cases.plain_config eq_refl Hall).
Defined.

Lemma deploy_invalid_batch_size_witness :
  deployment_in_progress (current Cases.mixed_world) = false ∧
  Exists (λ i, ¬ matches Scenario.desired i) (fleet Cases.mixed_world) ∧
  batch_size (Scenario.config (-3) None) ≤ 0 ∧
  deploy Scenario.no_deadline Cases.mixed_world Scenario.desired
         (Scenario.config (-3) None) false
  = (Raised (ValueError "batch_size must be > 0"), Cases.mixed_world).
Proof.
  assert (Exists (λ i, ¬ matches Scenario.desired i) (fleet Cases.mixed_world))
    as Hex.
  { apply (bool_decide_unpack _). vm_compute. exact I. }
  assert (batch_size (Scenario.config (-3) None) ≤ 0) as Hbs by (simpl; lia).
  split; [reflexivity|]. split; [exact Hex|]. split; [exact Hbs|].
  exact (deploy_invalid_batch_size Scenario.no_deadline Cases.mixed_world
           Scenario.desired (Scenario.config (-3) None) eq_refl Hex Hbs).
Defined.

Lemma plan_batches_count_witness :
  1 ≤ 3 ∧
  ∃ batches,
    plan_batches (seq 0 7) 3 = inr batches ∧
    length batches = ((length (seq 0 7) + Z.to_nat 3 - 1) / Z.to_nat 3)%nat ∧
    (seq 0 7 ≠ [] → Z.of_nat (length (seq 0 7)) ≤ 3 → batches = [seq 0 7]).
Proof.
  assert (1 ≤ 3) as Hbs by lia.
  split; [exact Hbs|]. exact (plan_batches_count (seq 0 7) 3 Hbs).
Defined.

Lemma update_instance_retry_outcome_witness :
  timeout_active Cases.retry_config = false ∧
  retry_max_attempts Cases.retry_config ≤ 1024 ∧
  _update_instance None Cases.retry_injector (Scenario.old_instance "id0")
                   Scenario.desired Cases.retry_config
  = if decide (remaining_failures Cases.retry_injector
                 (instance_id (Scenario.old_instance "id0"))
               < Z.max 1 (retry_max_attempts Cases.retry_config + 1)) then
      (inr (true, None),
       mkInstance (instance_id (Scenario.old_instance "id0"))
                  (sys_code_version Scenario.desired)
                  (sys_configuration_version Scenario.desired) HEALTHY,
       (should_fail_times
          (S (Z.to_nat (remaining_failures Cases.retry_injector
                          (instance_id (Scenario.old_instance "id0")))))
          Cases.retry_injector (Scenario.old_instance "id0")).2)
    else
      (inr (false, Some "Simulated deployment failure"%string),
       mkInstance (instance_id (Scenario.old_instance "id0"))
                  (code_version (Scenario.old_instance "id0"))
                  (configuration_version (Scenario.old_instance "id0")) FAILED,
       (should_fail_times
          (Z.to_nat (Z.max 1 (retry_max_attempts Cases.retry_config + 1)))
          Cases.retry_injector (Scenario.old_instance "id0")).2).
Proof.
  assert (retry_max_attempts Cases.retry_config ≤ 1024) as Hretry
    by (simpl; lia).
  split; [reflexivity|]. split; [exact Hretry|].
  exact (update_instance_retry_outcome None Cases.retry_injector
           (Scenario.old_instance "id0") Scenario.desired Cases.retry_config
           eq_refl Hretry).
Defined.

Lemma update_instance_backoff_overflow_witness :
  timeout_active Cases.endless_config = false ∧
  1024 < retry_max_attempts Cases.endless_config ∧
  1025 ≤ remaining_failures Cases.endless_injector
           (instance_id (Scenario.old_instance "id0")) ∧
  _update_instance None Cases.endless_injector (Scenario.old_instance "id0")
                   Scenario.desired Cases.endless_config
  = (inl (OverflowError "int too large to convert to float"),
     mkInstance (instance_id (Scenario.old_instance "id0"))
                (code_version (Scenario.old_instance "id0"))
                (configuration_version (Scenario.old_instance "id0")) DEGRADED,
     (should_fail_times 1025 Cases.endless_injector
                        (Scenario.old_instance "id0")).2).
Proof.
  assert (1024 < retry_max_attempts Cases.endless_config) as Hretry
    by (simpl; lia).
  assert (1025 ≤ remaining_failures Cases.endless_injector
                   (instance_id (Scenario.old_instance "id0"))) as Hf.
  { vm_compute. discriminate. }
  split; [reflexivity|]. split; [exact Hretry|]. split; [exact Hf|].
  exact (update_instance_backoff_overflow None Cases.endless_injector
           (Scenario.old_instance "id0") Scenario.desired Cases.endless_config
           eq_refl Hretry Hf).
Defined.


Lemma deploy_abort_report_witness :
  deploy Scenario.no_deadline Cases.abort_world Scenario.desired
         Cases.abort_config false
  = (Returned Cases.abort_result, Scenario.abort_run.2) ∧
  rolled_back Cases.abort_result = true ∧
  current Scenario.abort_run.2 = current Cases.abort_world ∧
  aborted_reason Cases.abort_result = Some "failure thresholds exceeded"%string ∧
  failed Cases.abort_result ≠ [] ∧
  _check_failure_limits
    (Z.of_nat (length (filter (λ i, ¬ matches Scenario.desired i)
                              (fleet Cases.abort_world))))
    (Z.of_nat (length (failed Cases.abort_result))) Cases.abort_config
  = true ∧
  last (history Cases.abort_result)
  = Some (abort "failure thresholds exceeded"
                (length (failed Cases.abort_result))
                (length (filter (λ i, ¬ matches Scenario.desired i)
                                (fleet Cases.abort_world)))).
Proof.
  assert (deploy Scenario.no_deadline Cases.abort_world Scenario.desired
                 Cases.abort_config false
          = (Returned Cases.abort_result, Scenario.abort_run.2)) as Hrun
    by (vm_compute; reflexivity).
  assert (rolled_back Cases.abort_result = true) as Hrb
    by (vm_compute; reflexivity).
  split; [exact Hrun|]. split; [exact Hrb|].
  exact (deploy_abort_report Scenario.no_deadline Cases.abort_world
           Scenario.desired Cases.abort_config false _ _ Hrun Hrb).
Defined.

Lemma deploy_completion_sets_current_witness :
  deploy Scenario.no_deadline Cases.partial_world Scenario.desired
         Cases.plain_config false
  = (Returned Cases.partial_result, Scenario.partial_run.2) ∧
  rolled_back Cases.partial_result = false ∧
  success Cases.partial_result = false ∧
  current Scenario.partial_run.2
  = mkSystem (sys_code_version Scenario.desired)
             (sys_configuration_version Scenario.desired) false ∧
  aborted_reason Cases.partial_result = None.
Proof.
  assert (deploy Scenario.no_deadline Cases.partial_world Scenario.desired
                 Cases.plain_config false
          = (Returned Cases.partial_result, Scenario.partial_run.2)) as Hrun
    by (vm_compute; reflexivity).
  assert (rolled_back Cases.partial_result = false) as Hrb
    by (vm_compute; reflexivity).
  split; [exact Hrun|]. split; [exact Hrb|]. split; [vm_compute; reflexivity|].
  exact (deploy_completion_sets_current Scenario.no_deadline Cases.partial_world
           Scenario.desired Cases.plain_config _ _ Hrun Hrb).
Defined.

Lemma deploy_completion_within_thresholds_witness :
  deploy Scenario.no_deadline Cases.partial_world Scenario.desired
         (Scenario.config 2 (Some 1)) false
  = (Returned Cases.partial_result, Scenario.partial_run.2) ∧
  rolled_back Cases.partial_result = false ∧
  _check_failure_limits
    (Z.of_nat (length (filter (λ i, ¬ matches Scenario.desired i)
                              (fleet Cases.partial_world))))
    (Z.of_nat (length (failed Cases.partial_result)))
    (Scenario.config 2 (Some 1))
  = false ∧
  (∀ m, max_failures (Scenario.config 2 (Some 1)) = Some m →
        failed Cases.partial_result = [] ∨
        Z.of_nat (length (failed Cases.partial_result)) ≤ m).
Proof.
  assert (deploy Scenario.no_deadline Cases.partial_world Scenario.desired
                 (Scenario.config 2 (Some 1)) false
          = (Returned Cases.partial_result, Scenario.partial_run.2)) as Hrun
    by (vm_compute; reflexivity).
  assert (rolled_back Cases.partial_result = false) as Hrb
    by (vm_compute; reflexivity).
  split; [exact Hrun|]. split; [exact Hrb|].
  exact (deploy_completion_within_thresholds Scenario.no_deadline
           Cases.partial_world Scenario.desired (Scenario.config 2 (Some 1))
           false _ _ Hrun Hrb).
Defined.

Lemma deploy_without_thresholds_witness :
  max_failures Cases.plain_config = None ∧
  failure_percentage Cases.plain_config = None ∧
  deploy Scenario.no_deadline Cases.partial_world Scenario.desired
         Cases.plain_config false
  = (Returned Cases.partial_result, Scenario.partial_run.2) ∧
  rolled_back Cases.partial_result = false.
Proof.
  assert (deploy Scenario.no_deadline Cases.partial_world Scenario.desired
                 Cases.plain_config false
          = (Returned Cases.partial_result, Scenario.partial_run.2)) as Hrun
    by (vm_compute; reflexivity).
  split; [reflexivity|]. split; [reflexivity|]. split; [exact Hrun|].
  exact (deploy_without_thresholds Scenario.no_deadline Cases.partial_world
           Scenario.desired Cases.plain_config false _ _ eq_refl eq_refl Hrun).
Defined.

Lemma deploy_final_fleet_witness :
  deploy Scenario.no_deadline Cases.partial_world Scenario.desired
         Cases.plain_config false
  = (Returned Cases.partial_result, Scenario.partial_run.2) ∧
  rolled_back Cases.partial_result = false ∧
  ∀ k old, fleet Cases.partial_world !! k = Some old →
    ∃ new, fleet Scenario.partial_run.2 !! k = Some new ∧
      (matches Scenario.desired old → new = old) ∧
      (¬ matches Scenario.desired old →
         (instance_id old ∈ updated Cases.partial_result ∧
          new = mkInstance (instance_id old) (sys_code_version Scenario.desired)
                           (sys_configuration_version Scenario.desired) HEALTHY) ∨
         (instance_id old ∈ failed Cases.partial_result ∧
          new = mkInstance (instance_id old) (code_version old)
                           (configuration_version old) FAILED)).
Proof.
  assert (deploy Scenario.no_deadline Cases.partial_world Scenario.desired
                 Cases.plain_config false
          = (Returned Cases.partial_result, Scenario.partial_run.2)) as Hrun
    by (vm_compute; reflexivity).
  assert (rolled_back Cases.partial_result = false) as Hrb
    by (vm_compute; reflexivity).
  split; [exact Hrun|]. split; [exact Hrb|].
  exact (deploy_final_fleet Scenario.no_deadline Cases.partial_world
           Scenario.desired Cases.plain_config _ _ Hrun Hrb).
Defined.

Lemma deploy_batch_closure_witness :
  deploy Scenario.no_deadline Cases.abort_world Scenario.desired
         Cases.abort_config false
  = (Returned Cases.abort_result, Scenario.abort_run.2) ∧
  count_events is_batch_start (history Cases.abort_result)
  = (count_events is_batch_completed (history Cases.abort_result)
     + count_events is_abort (history Cases.abort_result))%nat ∧
  count_events is_abort (history Cases.abort_result)
  = (if rolled_back Cases.abort_result then 1 else 0)%nat ∧
  (false = false → rolled_back Cases.abort_result = false →
   count_events is_batch_start (history Cases.abort_result)
   = ((length (filter (λ i, ¬ matches Scenario.desired i)
                      (fleet Cases.abort_world))
       + Z.to_nat (batch_size Cases.abort_config) - 1)
      / Z.to_nat (batch_size Cases.abort_config))%nat).
Proof.
  assert (deploy Scenario.no_deadline Cases.abort_world Scenario.desired
                 Cases.abort_config false
          = (Returned Cases.abort_result, Scenario.abort_run.2)) as Hrun
    by (vm_compute; reflexivity).
  split; [exact Hrun|].
  exact (deploy_batch_closure Scenario.no_deadline Cases.abort_world
           Scenario.desired Cases.abort_config false _ _ Hrun).
Defined.

Lemma deploy_all_succeed_witness :
  deployment_in_progress (current Cases.mixed_world) = false ∧
  1 ≤ batch_size Cases.plain_config ∧
  timeout_active Cases.plain_config = false ∧
  (∀ i, i ∈ fleet Cases.mixed_world →
        remaining_failures (injector Cases.mixed_world) (instance_id i) ≤ 0) ∧
  ∃ r w',
    deploy Scenario.no_deadline Cases.mixed_world Scenario.desired
           Cases.plain_config false = (Returned r, w') ∧
    success r = true ∧
    rolled_back r = false ∧
    failed r = [] ∧
    updated r = instance_id <$> filter (λ i, ¬ matches Scenario.desired i)
                                       (fleet Cases.mixed_world) ∧
    fleet w'
    = (λ i, if decide (matches Scenario.desired i) then i
            else mkInstance (instance_id i) (sys_code_version Scenario.desired)
                            (sys_configuration_version Scenario.desired) HEALTHY)
        <$> fleet Cases.mixed_world ∧
    current w' = mkSystem (sys_code_version Scenario.desired)
                          (sys_configuration_version Scenario.desired) false.
Proof.
  assert (1 ≤ batch_size Cases.plain_config) as Hbs by (simpl; lia).
  assert (∀ i, i ∈ fleet Cases.mixed_world →
               remaining_failures (injector Cases.mixed_world) (instance_id i) ≤ 0)
    as Hquiet.
  { intros i _.
    change (default 0 ((∅ : gmap string Z) !! instance_id i)
            - default 0 ((∅ : gmap string Z) !! instance_id i) ≤ 0).
    rewrite lookup_empty. simpl. lia. }
  split; [reflexivity|]. split; [exact Hbs|]. split; [reflexivity|].
  split; [exact Hquiet|].
  exact (deploy_all_succeed Scenario.no_deadline Cases.mixed_world
           Scenario.desired Cases.plain_config eq_refl Hbs eq_refl Hquiet).
Defined.

Lemma deploy_per_node_history_witness :
  NoDup (instance_id <$> fleet Cases.partial_world) ∧
  deploy Scenario.no_deadline Cases.partial_world Scenario.desired
         Cases.plain_config false
  = (Returned Cases.partial_result, Scenario.partial_run.2) ∧
  rolled_back Cases.partial_result = false ∧
  (∀ id, id ∈ updated Cases.partial_result →
         ∃ b, per_node_history Cases.partial_result !! id
              = Some [node_updated b]) ∧
  (∀ id, id ∈ failed Cases.partial_result →
         ∃ b error, per_node_history Cases.partial_result !! id
                    = Some [node_failed b error]) ∧
  (∀ id, id ∉ updated Cases.partial_result ++ failed Cases.partial_result →
         per_node_history Cases.partial_result !! id = None).
Proof.
  assert (NoDup (instance_id <$> fleet Cases.partial_world)) as Hnd.
  { apply (bool_decide_unpack _). vm_compute. exact I. }
  assert (deploy Scenario.no_deadline Cases.partial_world Scenario.desired
                 Cases.plain_config false
          = (Returned Cases.partial_result, Scenario.partial_run.2)) as Hrun
    by (vm_compute; reflexivity).
  assert (rolled_back Cases.partial_result = false) as Hrb
    by (vm_compute; reflexivity).
  split; [exact Hnd|]. split; [exact Hrun|]. split; [exact Hrb|].
  exact (deploy_per_node_history Scenario.no_deadline Cases.partial_world
           Scenario.desired Cases.plain_config _ _ Hnd Hrun Hrb).
Defined.

Lemma rollback_document_restores_witness :
  NoDup (instance_id <$> Scenario.fleet2) ∧
  instance_id <$> fleet Scenario.partial_run.2 = instance_id <$> Scenario.fleet2 ∧
  rollback_document (raw_of <$> fleet Scenario.partial_run.2)
                    (snapshot_document (raw_of <$> Scenario.fleet2))
  = (raw_of <$> Scenario.fleet2, None).
Proof.
  assert (NoDup (instance_id <$> Scenario.fleet2)) as Hnd.
  { apply (bool_decide_unpack _). vm_compute. exact I. }
  assert (instance_id <$> fleet Scenario.partial_run.2
          = instance_id <$> Scenario.fleet2) as Hids
    by (vm_compute; reflexivity).
  split; [exact Hnd|]. split; [exact Hids|].
  exact (rollback_document_restores Scenario.fleet2 (fleet Scenario.partial_run.2)
           Hnd Hids).
Defined.

Lemma rollback_document_bad_health_witness :
  rollback_document [Cases.raw_new "id0"] Cases.bad_snapshot
  = ([mkRaw "id0" "oldC" "oldK" "healthy"], None) ∧
  Cases.bad_snapshot !! raw_instance_id (Cases.raw_new "id1")
  = Some (asdict_document (mkRaw "id1" "oldC" "oldK" "HEALTHY")) ∧
  asdict_document (mkRaw "id1" "oldC" "oldK" "HEALTHY") !! "code_version"%string
  = Some "oldC"%string ∧
  asdict_document (mkRaw "id1" "oldC" "oldK" "HEALTHY")
    !! "configuration_version"%string = Some "oldK"%string ∧
  asdict_document (mkRaw "id1" "oldC" "oldK" "HEALTHY") !! "health"%string
  = Some "HEALTHY"%string ∧
  ("HEALTHY"%string ∉ ["healthy"; "degraded"; "failed"]%string) ∧
  rollback_document ([Cases.raw_new "id0"] ++ Cases.raw_new "id1"
                       :: [Cases.raw_new "id2"])
                    Cases.bad_snapshot
  = ([mkRaw "id0" "oldC" "oldK" "healthy"]
       ++ mkRaw (raw_instance_id (Cases.raw_new "id1")) "oldC" "oldK"
                (raw_health (Cases.raw_new "id1"))
       :: [Cases.raw_new "id2"],
     Some (HealthValueError "HEALTHY")).
Proof.
  assert (rollback_document [Cases.raw_new "id0"] Cases.bad_snapshot
          = ([mkRaw "id0" "oldC" "oldK" "healthy"], None)) as Hdone
    by (vm_compute; reflexivity).
  assert ("HEALTHY"%string ∉ ["healthy"; "degraded"; "failed"]%string) as Hbad.
  { apply (bool_decide_unpack _). vm_compute. exact I. }
  split; [exact Hdone|]. split; [vm_compute; reflexivity|].
  split; [vm_compute; reflexivity|]. split; [vm_compute; reflexivity|].
  split; [vm_compute; reflexivity|]. split; [exact Hbad|].
  exact (rollback_document_bad_health [Cases.raw_new "id0"] [Cases.raw_new "id2"]
           (Cases.raw_new "id1") Cases.bad_snapshot
           (asdict_document (mkRaw "id1" "oldC" "oldK" "HEALTHY"))
           [mkRaw "id0" "oldC" "oldK" "healthy"] "oldC" "oldK" "HEALTHY"
           Hdone eq_refl eq_refl eq_refl eq_refl Hbad).
Defined.

Lemma update_instance_timeout_witness :
  timeout_active (mkConfig 1 None None (Some (PyFloat.int_truediv 1 10)) 0
                           (PyFloat.int_truediv 1 10)) = true ∧
  PyFloat.gt (delay_seconds (mkInjector ∅ (PyFloat.of_int 1) ∅)) PyFloat.zero
  = true ∧
  _update_instance (Some 0%nat) (mkInjector ∅ (PyFloat.of_int 1) ∅)
                   (Scenario.old_instance "id0") Scenario.desired
                   (mkConfig 1 None None (Some (PyFloat.int_truediv 1 10)) 0
                             (PyFloat.int_truediv 1 10))
  = (inr (false, Some "timeout"%string),
     set_health FAILED (Scenario.old_instance "id0"),
     mkInjector ∅ (PyFloat.of_int 1) ∅) ∧
  (false = false ∧
   timeout_active (mkConfig 1 None None (Some (PyFloat.int_truediv 1 10)) 0
                            (PyFloat.int_truediv 1 10)) = true ∧
   same_versions (Scenario.old_instance "id0")
                 (set_health FAILED (Scenario.old_instance "id0")) ∧
   health (set_health FAILED (Scenario.old_instance "id0")) = FAILED).
Proof.
  destruct (update_instance_timeout (Some 0%nat) (mkInjector ∅ (PyFloat.of_int 1) ∅)
              (Scenario.old_instance "id0") Scenario.desired
              (mkConfig 1 None None (Some (PyFloat.int_truediv 1 10)) 0
                        (PyFloat.int_truediv 1 10))) as [Honly Hfirst].
  assert (timeout_active (mkConfig 1 None None (Some (PyFloat.int_truediv 1 10)) 0
                                   (PyFloat.int_truediv 1 10)) = true) as Hactive
    by (vm_compute; reflexivity).
  assert (PyFloat.gt (delay_seconds (mkInjector ∅ (PyFloat.of_int 1) ∅))
                     PyFloat.zero = true) as Hdelay
    by (vm_compute; reflexivity).
  split; [exact Hactive|]. split; [exact Hdelay|].
  split; [exact (Hfirst Hactive Hdelay eq_refl)|].
  exact (Honly _ _ _ (Hfirst Hactive Hdelay eq_refl)).
Defined.

Lemma take_snapshot_entries_witness :
  (∀ id, is_Some (take_snapshot Cases.done_fleet !! id)
         ↔ id ∈ instance_id <$> Cases.done_fleet) ∧
  take_snapshot
    ([Scenario.old_instance "id0"] ++ mkInstance "id0" "newC" "newK" FAILED :: [])
    !! "id0"%string
  = Some (mkInstance "id0" "newC" "newK" FAILED).
Proof.
  split; [exact (proj1 (take_snapshot_entries Cases.done_fleet))|].
  refine (proj2 (take_snapshot_entries
                   ([Scenario.old_instance "id0"]
                      ++ mkInstance "id0" "newC" "newK" FAILED :: []))
                [Scenario.old_instance "id0"]
                (mkInstance "id0" "newC" "newK" FAILED) [] eq_refl _).
  apply not_elem_of_nil.
Defined.
